(** * aiogram_broadcaster: the base broadcaster

    A shallow embedding of [aiogram_broadcaster/base.py] (class
    [BaseBroadcaster]) and the properties of its target normalisation,
    its run loop and its outcome bookkeeping.

    Python objects that the code mutates or compares by identity (the
    dictionaries handed to the constructor, the broadcaster itself) live
    at addresses; everything else is a value. *)

From Stdlib Require Import QArith.
From stdpp Require Import gmap strings list fin_maps sorting functions.

Open Scope string_scope.
Open Scope list_scope.

(** ** Values, dictionaries and the store of caller-owned dictionaries *)

(** The Python values the code inspects.  [bool] is a subclass of [int]
    in Python, so [VBool] passes [isinstance(_, int)]. *)
Inductive pyval :=
  | VNone
  | VBool (b : bool)
  | VInt (z : Z)
  | VStr (s : string).

Global Instance pyval_eq_dec : EqDecision pyval.
Proof. solve_decision. Defined.

(** Python truthiness, as used by [if x], [all(...)] and [not x]. *)
Definition truthy (v : pyval) : bool :=
  match v with
  | VNone => false
  | VBool b => b
  | VInt z => negb (Z.eqb z 0)
  | VStr s => negb (String.eqb s "")
  end.

(** [isinstance(v, int) or isinstance(v, str)] *)
Definition is_int_or_str (v : pyval) : bool :=
  match v with
  | VBool _ | VInt _ | VStr _ => true
  | VNone => false
  end.

(** A [dict] with field names as keys. *)
Abbreviation dict := (gmap string pyval).

(** [d.get(k)]: the value, or [None] when the key is absent. *)
Definition dict_get (d : dict) (k : string) : pyval := default VNone (d !! k).

(** [{**d, **e}]: the entries of [e] are written after, and over, those of [d]. *)
Definition dict_update (d e : dict) : dict := e ∪ d.

(** Code-point order on strings, the order [sorted] uses on [str] keys. *)
Definition str_le (s t : string) : Prop := String.leb s t = true.

Global Instance str_le_dec : RelDecision str_le.
Proof. intros s t. unfold str_le. apply _. Defined.

(** [sorted(d.keys())] *)
Definition sorted_keys (d : dict) : list string :=
  merge_sort str_le (elements (dom d)).

(** Addresses of mutable objects, and the store of the dictionaries the
    caller passes in (the records of [chats], and [args]). *)
Abbreviation loc := nat.
Abbreviation heap := (loc → dict).

(** An element of a [chats] list: a plain value or a reference to a dict. *)
Inductive item :=
  | IVal (v : pyval)
  | IDict (l : loc).

(** The [chats] argument of the constructor. *)
Inductive chats_arg :=
  | CVal (v : pyval)
  | CDict (l : loc)
  | CList (xs : list item).

(** ** Exceptions and the state-and-exception monad *)

Inductive value_error_msg :=
  | NotAllHaveChatId      (* 'Not all dictionaries have the "chat_id" key' *)
  | NotIdenticalKeys      (* 'Not all dictionaries have identical keys' *)
  | NotInList.            (* list.remove(x): x not in list *)

Inductive attribute_error_msg :=
  | ExpectedChatsType     (* 'argument chats: expected ..., got ...' *)
  | NeedBotOrToken        (* 'You should either pass a bot instance or a token' *)
  | BothBotAndToken       (* 'You can't pass both bot and token' *)
  | NoAttribute (name : string).  (* 'X' object has no attribute 'name' *)

Inductive exn :=
  | ValueError (m : value_error_msg)
  | AttributeError (m : attribute_error_msg)
  | TypeError               (* 'NoneType' object is not a mapping *)
  | KeyError (k : string)
  | RunningError (is_running : bool)
  | External (code : nat).  (* raised by a collaborator outside this module *)

Inductive result (A : Type) :=
  | Ok (a : A)
  | Raise (e : exn).
Arguments Ok {A} a.
Arguments Raise {A} e.

(** A computation over a state [S]: the state at the point of a raise is
    kept, as Python keeps every mutation made before an exception. *)
Definition M (S A : Type) : Type := S → result A * S.

Global Instance M_ret {S} : MRet (M S) := λ A a s, (Ok a, s).
Global Instance M_bind {S} : MBind (M S) := λ A B k m s,
  match m s with
  | (Ok a, s') => k a s'
  | (Raise e, s') => (Raise e, s')
  end.
Definition raise {S A} (e : exn) : M S A := λ s, (Raise e, s).
Definition get_state {S} : M S S := λ s, (Ok s, s).
Definition modify {S} (f : S → S) : M S unit := λ s, (Ok tt, f s).

(** [for x in xs: body(x)] *)
Fixpoint for_each {S A} (body : A → M S unit) (xs : list A) : M S unit :=
  match xs with
  | [] => mret tt
  | x :: xs' => body x ;; for_each body xs'
  end.

(** ** Target normalisation: [_setup_chats] and [_chek_identical_keys] *)

Module TargetSet.

(** [all([isinstance(chat, int) or isinstance(chat, str) for chat in chats])]:
    the elements as scalars when the test holds. *)
Definition all_scalars (xs : list item) : option (list pyval) :=
  mapM (λ x, match x with
             | IVal v => if is_int_or_str v then Some v else None
             | IDict _ => None
             end) xs.

(** [all([isinstance(chat, dict) for chat in chats])]: the elements as
    references to dictionaries when the test holds. *)
Definition all_dicts (xs : list item) : option (list loc) :=
  mapM (λ x, match x with IDict l => Some l | IVal _ => None end) xs.

(** [chat.pop('chat_id')]: removes the key from the caller's dictionary. *)
Definition dict_pop (l : loc) (k : string) : M heap pyval :=
  h ← get_state;
  match h l !! k with
  | Some v => modify (λ h, <[l := delete k (h l)]> h) ;; mret v
  | None => raise (KeyError k)
  end.

(** [{**base, **x}] where [x] is an optional reference to a dict;
    unpacking [None] is a [TypeError]. *)
Definition unpack (base : dict) (x : option loc) : M heap dict :=
  match x with
  | Some l => h ← get_state; mret (dict_update base (h l))
  | None => raise TypeError
  end.

(** [_chek_identical_keys] (base.py 111-116). *)
Definition _chek_identical_keys (dicts : list dict) : bool :=
  match dicts with
  | [] => true
  | d0 :: rest =>
      forallb (λ d, bool_decide (sorted_keys d = sorted_keys d0)) rest
  end.

(** [{'chat_id': chat, **args}] (lines 87 and 94). *)
Definition scalar_target (args : option loc) (v : pyval) : M heap dict :=
  unpack {["chat_id" := v]} args.

(** One round of the comprehension of lines 104-107,
    [{'chat_id': chat.pop('chat_id'), **chat, **args} for chat in chats
     if chat.get('chat_id', None)]; [None] when the filter drops [chat]. *)
Definition record_target (args : option loc) (chat : loc) : M heap (option dict) :=
  h ← get_state;
  if truthy (dict_get (h chat) "chat_id") then
    v ← dict_pop chat "chat_id";
    d1 ← unpack {["chat_id" := v]} (Some chat);
    d2 ← unpack d1 args;
    mret (Some d2)
  else mret None.

(** The structured-record branch (lines 100-107). *)
Definition setup_records (chats : list loc) (args : option loc)
  : M heap (option (list dict)) :=
  h ← get_state;
  if negb (forallb (λ chat, truthy (dict_get (h chat) "chat_id")) chats) then
    raise (ValueError NotAllHaveChatId)
  else if negb (_chek_identical_keys (h <$> chats)) then
    raise (ValueError NotIdenticalKeys)
  else
    ts ← mapM (record_target args) chats;
    mret (Some (omap id ts)).

(** [_setup_chats] (base.py 85-109).  The result is the list assigned to
    [self.chats], or [None] when the method returns without assigning it. *)
Definition _setup_chats (chats : chats_arg) (args : option loc)
  : M heap (option (list dict)) :=
  match chats with
  | CVal v =>
      if is_int_or_str v then
        t ← scalar_target args v; mret (Some [t])
      else raise (AttributeError ExpectedChatsType)
  | CList xs =>
      match all_scalars xs with
      | Some vs => ts ← mapM (scalar_target args) vs; mret (Some ts)
      | None =>
          match all_dicts xs with
          | Some ls => setup_records ls args
          | None => mret None
          end
      end
  | CDict _ => raise (AttributeError ExpectedChatsType)
  end.

(** *** Notions used to state the properties of the normaliser *)

(** The store after the identifier field was popped from the records at
    the addresses [seen]. *)
Definition popped (h : heap) (seen : list loc) : heap :=
  λ l, if decide (l ∈ seen) then delete "chat_id" (h l) else h l.

(** The distinct addresses of [ls] that are not in [seen], each at its
    first occurrence. *)
Fixpoint firsts (seen ls : list loc) : list loc :=
  match ls with
  | [] => []
  | l :: ls' =>
      if decide (l ∈ seen) then firsts seen ls' else l :: firsts (l :: seen) ls'
  end.

(** A record without the identifier field, or with a falsy identifier. *)
Definition bad_identifier (d : dict) : Prop :=
  d !! "chat_id" = None ∨
  d !! "chat_id" = Some VNone ∨
  d !! "chat_id" = Some (VBool false) ∨
  d !! "chat_id" = Some (VInt 0) ∨
  d !! "chat_id" = Some (VStr "").

(** Some record's set of field names differs from the first record's. *)
Definition keys_differ (h : heap) (ls : list loc) : Prop :=
  match ls with
  | [] => False
  | l0 :: rest => Exists (λ l, dom (h l) ≠ dom (h l0)) rest
  end.

(** The addresses of the dictionaries in a target specification. *)
Definition records_of (chats : chats_arg) : list loc :=
  match chats with
  | CList xs => omap (λ x, match x with IDict l => Some l | IVal _ => None end) xs
  | CVal _ | CDict _ => []
  end.

(** The supported, non-empty target specifications: a scalar, a non-empty
    list of scalars, a non-empty list of records. *)
Inductive nonempty_spec : chats_arg → Prop :=
  | spec_scalar v :
      is_int_or_str v = true → nonempty_spec (CVal v)
  | spec_scalars v vs :
      Forall (λ v, is_int_or_str v = true) (v :: vs) →
      nonempty_spec (CList (IVal <$> v :: vs))
  | spec_records l ls :
      nonempty_spec (CList (IDict <$> l :: ls)).

(** A store for examples: the record [{'chat_id': 5, 'opt': 'a'}] at
    address 0, the defaults [{'opt': 'b'}] at address 1, a record with
    other field names at 2, one with a zero identifier at 3, one with the
    field names of the first at 4, and empty dictionaries elsewhere. *)
Definition example_heap : heap :=
  λ l, match l with
       | 0 => {["chat_id" := VInt 5; "opt" := VStr "a"]}
       | 1 => {["opt" := VStr "b"]}
       | 2 => {["chat_id" := VInt 7]}
       | 3 => {["chat_id" := VInt 0; "opt" := VStr "c"]}
       | 4 => {["chat_id" := VInt 6; "opt" := VStr "d"]}
       | _ => ∅
       end.

End TargetSet.

(** ** The broadcaster object *)

Module Broadcaster.
Import TargetSet.

Global Instance result_ret : MRet result := λ A a, Ok a.
Global Instance result_bind : MBind result := λ A B k r,
  match r with
  | Ok a => k a
  | Raise e => Raise e
  end.

(** A computation that only reads, run inside a stateful one. *)
Definition lift {S A} (r : result A) : M S A := λ s, (r, s).

(** Bot instances are opaque handles; the ambient [Bot.get_current()] and
    the constructor [Bot(token=...)] belong to aiogram. *)
Definition Bot := nat.

Record aiogram := {
  Bot_get_current : option Bot;
  Bot_new : string → result Bot;
}.

(** The instance attributes set by [__init__] (base.py 29-46).  [chats] is
    [None] when [_setup_chats] returned without assigning the attribute. *)
Record BaseBroadcaster := {
  chats : option (list dict);
  disable_notification : option bool;
  disable_web_page_preview : option bool;
  reply_to_message_id : option Z;
  allow_sending_without_reply : option bool;
  reply_markup : pyval;
  bot : Bot;
  timeout : Q;
  _id : nat;
  _is_running : bool;
  _successful : list pyval;
  _failure : list dict;
}.

Definition set_is_running (v : bool) (b : BaseBroadcaster) : BaseBroadcaster :=
  {| chats := chats b;
     disable_notification := disable_notification b;
     disable_web_page_preview := disable_web_page_preview b;
     reply_to_message_id := reply_to_message_id b;
     allow_sending_without_reply := allow_sending_without_reply b;
     reply_markup := reply_markup b;
     bot := bot b; timeout := timeout b; _id := _id b;
     _is_running := v;
     _successful := _successful b;
     _failure := _failure b |}.

(** [self._successful.append(x)] *)
Definition append_successful (x : pyval) (b : BaseBroadcaster) : BaseBroadcaster :=
  {| chats := chats b;
     disable_notification := disable_notification b;
     disable_web_page_preview := disable_web_page_preview b;
     reply_to_message_id := reply_to_message_id b;
     allow_sending_without_reply := allow_sending_without_reply b;
     reply_markup := reply_markup b;
     bot := bot b; timeout := timeout b; _id := _id b;
     _is_running := _is_running b;
     _successful := _successful b ++ [x];
     _failure := _failure b |}.

(** [self._failure.append(x)] *)
Definition append_failure (x : dict) (b : BaseBroadcaster) : BaseBroadcaster :=
  {| chats := chats b;
     disable_notification := disable_notification b;
     disable_web_page_preview := disable_web_page_preview b;
     reply_to_message_id := reply_to_message_id b;
     allow_sending_without_reply := allow_sending_without_reply b;
     reply_markup := reply_markup b;
     bot := bot b; timeout := timeout b; _id := _id b;
     _is_running := _is_running b;
     _successful := _successful b;
     _failure := _failure b ++ [x] |}.

(** Truthiness of the [bot_token] argument. *)
Definition token_truthy (token : option string) : bool :=
  match token with
  | Some t => negb (String.eqb t "")
  | None => false
  end.

(** [_setup_bot] (base.py 65-83); the result is the value of [self.bot]. *)
Definition _setup_bot (lib : aiogram) (bot : option Bot) (token : option string)
  : result Bot :=
  bot' ← (if negb (bool_decide (is_Some bot) || token_truthy token) then
            match Bot_get_current lib with
            | Some b => Ok (Some b)
            | None => Raise (AttributeError NeedBotOrToken)
            end
          else Ok bot);
  if bool_decide (is_Some bot') && token_truthy token then
    Raise (AttributeError BothBotAndToken)
  else
    match bot' with
    | Some b => Ok b
    | None => Bot_new lib (default "" token)
    end.

(** The keyword arguments of [__init__] other than [chats] and [args]. *)
Record init_kwargs := {
  kw_disable_notification : option bool;
  kw_disable_web_page_preview : option bool;
  kw_reply_to_message_id : option Z;
  kw_allow_sending_without_reply : option bool;
  kw_reply_markup : pyval;
  kw_bot : option Bot;
  kw_bot_token : option string;
  kw_timeout : Q;
}.

(** The defaults of the signature, with a bot instance supplied. *)
Definition kwargs_with_bot (b : Bot) : init_kwargs :=
  {| kw_disable_notification := None;
     kw_disable_web_page_preview := None;
     kw_reply_to_message_id := None;
     kw_allow_sending_without_reply := None;
     kw_reply_markup := VNone;
     kw_bot := Some b;
     kw_bot_token := None;
     kw_timeout := 2 # 100 |}.

(** An environment for examples: no ambient bot, and no token accepted. *)
Definition no_ambient_bot : aiogram :=
  {| Bot_get_current := None; Bot_new := λ _, Raise (External 0) |}.

(** [__init__] (base.py 15-46).  [running] is the class attribute
    [BaseBroadcaster.running] at the time of the call. *)
Definition __init__ (lib : aiogram) (running : list loc)
    (chats : chats_arg) (args : option loc) (kw : init_kwargs)
  : M heap BaseBroadcaster :=
  cs ← _setup_chats chats args;
  b ← lift (_setup_bot lib (kw_bot kw) (kw_bot_token kw));
  mret {| chats := cs;
          disable_notification := kw_disable_notification kw;
          disable_web_page_preview := kw_disable_web_page_preview kw;
          reply_to_message_id := kw_reply_to_message_id kw;
          allow_sending_without_reply := kw_allow_sending_without_reply kw;
          reply_markup := kw_reply_markup kw;
          bot := b;
          timeout := kw_timeout kw;
          _id := length running;
          _is_running := false;
          _successful := [];
          _failure := [] |}.

(** The [successful] property (base.py 58-63). *)
Definition successful (b : BaseBroadcaster) : result (list pyval) :=
  if negb (_is_running b) then Raise (RunningError (_is_running b))
  else Ok (_successful b).

(** [self.chats]: an [AttributeError] when the attribute was never set. *)
Definition get_chats (b : BaseBroadcaster) : result (list dict) :=
  match chats b with
  | Some cs => Ok cs
  | None => Raise (AttributeError (NoAttribute "chats"))
  end.

(** The attribute list rendered by [__str__] (base.py 48-56). *)
Record status_line := {
  st_id : nat;
  st_is_running : bool;
  st_progress : option (nat * nat);
}.

Definition __str__ (b : BaseBroadcaster) : result status_line :=
  if _is_running b then
    s ← successful b;
    cs ← get_chats b;
    mret {| st_id := _id b; st_is_running := _is_running b;
            st_progress := Some (length s, length cs) |}
  else
    mret {| st_id := _id b; st_is_running := _is_running b;
            st_progress := None |}.

(** [_parse_args] (base.py 118-122): the identifier and the whole target. *)
Definition _parse_args (chat : dict) : pyval * dict :=
  (dict_get chat "chat_id", chat).

(** What a run does to the outside: log lines, calls of [send], sleeps. *)
Inductive log_line :=
  | LogStatus (s : status_line)
  | LogSummary (sent total : nat).

Inductive event :=
  | ELogInfo (m : log_line)
  | ESend (chat_id : pyval) (chat_args : dict)
  | ESleep (delay : Q).

(** The state a run works on: the broadcaster, the class attribute
    [running], the trace of events, and the state of the subclass's [send]. *)
Record world (W : Type) := {
  self : BaseBroadcaster;
  running : list loc;
  events : list event;
  delivery : W;
}.
Arguments self {W} w.
Arguments running {W} w.
Arguments events {W} w.
Arguments delivery {W} w.

Section run.
Context {W : Type}.
(** The abstract method [send] of the subclass, with a state of its own. *)
Variable send : pyval → dict → M W pyval.
(** The identity of the broadcaster object. *)
Variable this : loc.

Definition on_self (f : BaseBroadcaster → BaseBroadcaster) : M (world W) unit :=
  modify (λ w, {| self := f (self w); running := running w;
                  events := events w; delivery := delivery w |}).

Definition emit (e : event) : M (world W) unit :=
  modify (λ w, {| self := self w; running := running w;
                  events := events w ++ [e]; delivery := delivery w |}).

(** [BaseBroadcaster.running.append(self)] *)
Definition running_append : M (world W) unit :=
  modify (λ w, {| self := self w; running := running w ++ [this];
                  events := events w; delivery := delivery w |}).

(** [list.remove(x)]: drops the first occurrence. *)
Fixpoint list_remove (x : loc) (l : list loc) : option (list loc) :=
  match l with
  | [] => None
  | y :: l' => if decide (x = y) then Some l' else (y ::.) <$> list_remove x l'
  end.

(** [BaseBroadcaster.running.remove(self)] *)
Definition running_remove : M (world W) unit :=
  w ← get_state;
  match list_remove this (running w) with
  | Some l => modify (λ w, {| self := self w; running := l;
                              events := events w; delivery := delivery w |})
  | None => raise (ValueError NotInList)
  end.

(** A computation of the subclass, run on its own part of the state. *)
Definition in_delivery {A} (m : M W A) : M (world W) A :=
  λ w, let '(r, d) := m (delivery w) in
       (r, {| self := self w; running := running w;
              events := events w; delivery := d |}).

(** [await self.send(chat_id=chat_id, chat_args=chat_args)] *)
Definition await_send (chat_id : pyval) (chat_args : dict) : M (world W) pyval :=
  emit (ESend chat_id chat_args);;
  in_delivery (send chat_id chat_args).

(** The body of the loop of [run] (base.py 136-142). *)
Definition run_body (chat : dict) : M (world W) unit :=
  w ← get_state;
  line ← lift (__str__ (self w));
  emit (ELogInfo (LogStatus line));;
  let '(chat_id, chat_args) := _parse_args chat in
  r ← await_send chat_id chat_args;
  (if truthy r then on_self (append_successful chat_id)
   else on_self (append_failure chat));;
  w ← get_state;
  emit (ESleep (timeout (self w))).

(** [run] (base.py 132-145). *)
Definition run : M (world W) unit :=
  on_self (set_is_running true);;
  running_append;;
  w ← get_state;
  cs ← lift (get_chats (self w));
  for_each run_body cs;;
  on_self (set_is_running false);;
  running_remove;;
  w ← get_state;
  cs ← lift (get_chats (self w));
  emit (ELogInfo (LogSummary (length (_successful (self w))) (length cs))).

(** *** Notions used to state the properties of a run *)

(** The values [send] returns for the targets [ts] in turn, up to the
    first call that raises, with that exception and the final state of
    the subclass. *)
Fixpoint deliveries (ts : list dict) (d : W) : list pyval * option exn * W :=
  match ts with
  | [] => ([], None, d)
  | t :: ts' =>
      match send (dict_get t "chat_id") t d with
      | (Ok v, d1) =>
          let '(vs, e, d2) := deliveries ts' d1 in (v :: vs, e, d2)
      | (Raise e, d1) => ([], Some e, d1)
      end
  end.

End run.

(** The identifiers of the targets whose delivery returned a truthy value. *)
Definition succ_ids (ts : list dict) (vs : list pyval) : list pyval :=
  (λ p, dict_get p.1 "chat_id") <$> filter (λ p, truthy p.2 = true) (zip ts vs).

(** The targets whose delivery returned a falsy value. *)
Definition fail_targets (ts : list dict) (vs : list pyval) : list dict :=
  fst <$> filter (λ p, truthy p.2 = false) (zip ts vs).

(** The trace without its log lines. *)
Definition is_log (e : event) : bool :=
  match e with ELogInfo _ => true | ESend _ _ | ESleep _ => false end.

Definition non_log (evs : list event) : list event :=
  filter (λ e, is_log e = false) evs.

(** The delays of the sleeps of a trace, and their sum. *)
Definition sleeps (evs : list event) : list Q :=
  omap (λ e, match e with ESleep q => Some q | _ => None end) evs.

Definition total_suspension (evs : list event) : Q :=
  foldr Qplus 0%Q (sleeps evs).

(** What one delivered target adds to the trace, log lines apart. *)
Definition send_then_sleep (delay : Q) (t : dict) : list event :=
  [ESend (dict_get t "chat_id") t; ESleep delay].

(** The broadcaster with outcomes appended to its two logs. *)
Definition with_outcomes (s : list pyval) (f : list dict) (b : BaseBroadcaster)
  : BaseBroadcaster :=
  {| chats := chats b;
     disable_notification := disable_notification b;
     disable_web_page_preview := disable_web_page_preview b;
     reply_to_message_id := reply_to_message_id b;
     allow_sending_without_reply := allow_sending_without_reply b;
     reply_markup := reply_markup b;
     bot := bot b; timeout := timeout b; _id := _id b;
     _is_running := _is_running b;
     _successful := _successful b ++ s;
     _failure := _failure b ++ f |}.

(** *** Examples *)

(** Three targets with the identifiers 1, 2 and 3 and no other attribute. *)
Definition example_targets : list dict :=
  [{["chat_id" := VInt 1]}; {["chat_id" := VInt 2]}; {["chat_id" := VInt 3]}].

(** The broadcaster [__init__] builds for [chats = [1, 2, 3]], [args = {}]
    and a bot instance, when no other broadcaster is running. *)
Definition example_broadcaster : BaseBroadcaster :=
  {| chats := Some example_targets;
     disable_notification := None;
     disable_web_page_preview := None;
     reply_to_message_id := None;
     allow_sending_without_reply := None;
     reply_markup := VNone;
     bot := 7; timeout := 2 # 100; _id := 0;
     _is_running := false;
     _successful := [];
     _failure := [] |}.

Definition example_world : world unit :=
  {| self := example_broadcaster; running := []; events := []; delivery := tt |}.

(** A [send] that returns [False] for the identifier 2 and [True] otherwise. *)
Definition send_all_but_2 (chat_id : pyval) (chat_args : dict) : M unit pyval :=
  mret (VBool (bool_decide (chat_id ≠ VInt 2))).

(** A [send] that raises for the identifier 2 and returns [True] otherwise. *)
Definition send_raising_on_2 (chat_id : pyval) (chat_args : dict) : M unit pyval :=
  if decide (chat_id = VInt 2) then raise (External 1) else mret (VBool true).

(** A [send] that always returns [True]. *)
Definition send_true (chat_id : pyval) (chat_args : dict) : M unit pyval :=
  mret (VBool true).

(** A [send] that raises the first time it meets the identifier 2 and
    returns [True] otherwise; its state records whether it has raised. *)
Definition send_failing_once (chat_id : pyval) (chat_args : dict) : M bool pyval :=
  λ failed,
    if decide (chat_id = VInt 2 ∧ failed = false)
    then (Raise (External 1), true)
    else (Ok (VBool true), failed).

(** The example broadcaster with [send_failing_once], which has not
    raised yet. *)
Definition example_world_flaky : world bool :=
  {| self := example_broadcaster; running := []; events := [];
     delivery := false |}.

(** A broadcaster built for [chats = []], with nothing running. *)
Definition example_world_no_targets : world unit :=
  {| self := {| chats := Some [];
                disable_notification := None;
                disable_web_page_preview := None;
                reply_to_message_id := None;
                allow_sending_without_reply := None;
                reply_markup := VNone;
                bot := 7; timeout := 2 # 100; _id := 0;
                _is_running := false;
                _successful := [];
                _failure := [] |};
     running := []; events := []; delivery := tt |}.

(** The status lines a trace logs, in order. *)
Definition status_lines (evs : list event) : list status_line :=
  omap (λ e, match e with
             | ELogInfo (LogStatus s) => Some s
             | _ => None
             end) evs.

(** No usable token: the argument is [None] or the empty string. *)
Definition no_token (token : option string) : Prop :=
  token = None ∨ token = Some "".

End Broadcaster.

(** * Properties *)

(** ** Reasoning about computations *)

Section monad_facts.
Context {S : Type}.

Lemma bind_ok {A B} (m : M S A) (k : A → M S B) s a s' :
  m s = (Ok a, s') → (m ≫= k) s = k a s'.
Proof. intros H. unfold mbind, M_bind. by rewrite H. Qed.

Lemma bind_raise {A B} (m : M S A) (k : A → M S B) s e s' :
  m s = (Raise e, s') → (m ≫= k) s = (Raise e, s').
Proof. intros H. unfold mbind, M_bind. by rewrite H. Qed.

Lemma bind_inv_ok {A B} (m : M S A) (k : A → M S B) s b s2 :
  (m ≫= k) s = (Ok b, s2) →
  ∃ a s1, m s = (Ok a, s1) ∧ k a s1 = (Ok b, s2).
Proof.
  unfold mbind, M_bind. destruct (m s) as [[a|e] s1]; [eauto | discriminate].
Qed.

Lemma mapM_cons_ok {A B} (f : A → M S B) x xs s y s1 :
  f x s = (Ok y, s1) →
  mapM f (x :: xs) s =
    match mapM f xs s1 with
    | (Ok ys, s2) => (Ok (y :: ys), s2)
    | (Raise e, s2) => (Raise e, s2)
    end.
Proof.
  intros H. cbn [mapM]. erewrite bind_ok by exact H.
  unfold mbind, M_bind. by destruct (mapM f xs s1) as [[ys|e] s2].
Qed.

Lemma mapM_cons_raise {A B} (f : A → M S B) x xs s e s1 :
  f x s = (Raise e, s1) → mapM f (x :: xs) s = (Raise e, s1).
Proof. intros H. cbn [mapM]. by erewrite bind_raise by exact H. Qed.
End monad_facts.

(** ** Facts about dictionaries *)

Lemma sorted_keys_eq_dom (d e : dict) :
  sorted_keys d = sorted_keys e ↔ dom d = dom e.
Proof.
  unfold sorted_keys. split; [|by intros ->].
  intros H. apply set_eq. intros k.
  rewrite <-!elem_of_elements.
  rewrite <-(merge_sort_Permutation str_le (elements (dom d))).
  rewrite <-(merge_sort_Permutation str_le (elements (dom e))).
  by rewrite H.
Qed.

Lemma dict_update_lookup (d e : dict) k :
  dict_update d e !! k = match e !! k with Some v => Some v | None => d !! k end.
Proof.
  unfold dict_update. rewrite lookup_union.
  destruct (e !! k), (d !! k); done.
Qed.

Lemma truthy_get_Some (d : dict) k :
  truthy (dict_get d k) = true → ∃ v, d !! k = Some v ∧ truthy v = true.
Proof.
  unfold dict_get. destruct (d !! k) as [v|]; [eauto | discriminate].
Qed.

(** Writing a dictionary's own items over [{k: v}] after popping [k]
    gives the dictionary back. *)
Lemma display_after_pop (d : dict) k v :
  d !! k = Some v → dict_update {[k := v]} (delete k d) = d.
Proof.
  intros H. apply map_eq. intros j. rewrite dict_update_lookup.
  destruct (decide (j = k)) as [->|Hne].
  - by rewrite lookup_delete_eq, lookup_singleton_eq.
  - rewrite lookup_delete_ne by done. rewrite lookup_singleton_ne by done.
    by destruct (d !! j).
Qed.

(** ** The normaliser *)

Section target_set_facts.
Import TargetSet.

Lemma all_scalars_records l ls : all_scalars (IDict <$> l :: ls) = None.
Proof. reflexivity. Qed.

Lemma all_dicts_records ls : all_dicts (IDict <$> ls) = Some ls.
Proof.
  unfold all_dicts. induction ls as [|l ls IH]; [done|].
  cbn [fmap list_fmap mapM]. rewrite IH. done.
Qed.

Lemma all_scalars_vals vs :
  Forall (λ v, is_int_or_str v = true) vs → all_scalars (IVal <$> vs) = Some vs.
Proof.
  unfold all_scalars. induction 1 as [|v vs Hv _ IH]; [done|].
  cbn [fmap list_fmap mapM]. rewrite Hv, IH. done.
Qed.

Lemma bad_identifier_falsy (d : dict) :
  bad_identifier d ↔ truthy (dict_get d "chat_id") = false.
Proof.
  unfold bad_identifier, dict_get. split.
  - intros [H|[H|[H|[H|H]]]]; by rewrite H.
  - destruct (d !! "chat_id") as [[|[]|z|s]|]; cbn; try discriminate; auto.
    + destruct (Z.eqb_spec z 0) as [->|]; [auto 6 | discriminate].
    + destruct (String.eqb_spec s "") as [->|]; [auto 6 | discriminate].
Qed.

Lemma forallb_truthy_false (h : heap) ls :
  Exists (λ l, bad_identifier (h l)) ls →
  forallb (λ chat, truthy (dict_get (h chat) "chat_id")) ls = false.
Proof.
  induction 1 as [l ls H|l ls _ IH]; cbn.
  - apply bad_identifier_falsy in H. by rewrite H.
  - rewrite IH. apply andb_false_r.
Qed.

Lemma forallb_truthy_true (h : heap) ls :
  Forall (λ l, ¬ bad_identifier (h l)) ls →
  forallb (λ chat, truthy (dict_get (h chat) "chat_id")) ls = true.
Proof.
  induction 1 as [|l ls H _ IH]; cbn; [done|].
  rewrite IH, andb_true_r.
  destruct (truthy (dict_get (h l) "chat_id")) eqn:E; [done|].
  by apply bad_identifier_falsy in E.
Qed.

Lemma chek_identical_keys_true (h : heap) l0 ls :
  _chek_identical_keys (h <$> l0 :: ls) = true ↔
  Forall (λ l, dom (h l) = dom (h l0)) (l0 :: ls).
Proof.
  change (_chek_identical_keys (h <$> l0 :: ls)) with
    (forallb (λ d, bool_decide (sorted_keys d = sorted_keys (h l0))) (h <$> ls)).
  split.
  - intros H. constructor; [done|]. induction ls as [|l ls IH]; [done|].
    cbn in H. destruct (andb_prop _ _ H) as [H1 H2].
    constructor; [|auto].
    apply bool_decide_eq_true in H1. by apply sorted_keys_eq_dom.
  - intros H. apply Forall_cons_1 in H as [_ H].
    induction H as [|l ls H _ IH]; [done|].
    cbn. cbn in IH. rewrite IH, andb_true_r. apply bool_decide_eq_true.
    by apply sorted_keys_eq_dom.
Qed.

Lemma popped_ext (h : heap) s1 s2 l :
  (l ∈ s1 ↔ l ∈ s2) → popped h s1 l = popped h s2 l.
Proof. intros H. unfold popped. repeat case_decide; tauto. Qed.

(** The comprehension of lines 104-107, started when the records at
    [seen] have already been popped. *)
Lemma comprehension_spec (h : heap) la ls : ∀ seen h1,
  (∀ l, h1 l = popped h seen l) →
  Forall (λ l, ¬ bad_identifier (h l)) ls →
  ∃ ts h2,
    mapM (record_target (Some la)) ls h1 = (Ok ts, h2) ∧
    (∀ l, h2 l = popped h (ls ++ seen) l) ∧
    Forall2 (λ l (t : dict), ∀ k,
               k ≠ "chat_id" ∨ ((la ∉ seen) ∧ (la ∉ ls)) →
               t !! k = match h la !! k with
                        | Some v => Some v
                        | None => h l !! k
                        end)
            (firsts seen ls) (omap id ts).
Proof.
  induction ls as [|l ls IH]; intros seen h1 Hh1 Hok.
  { exists [], h1. split; [done|]. split; [exact Hh1 | constructor]. }
  apply Forall_cons_1 in Hok as [Hl Hok].
  destruct (decide (l ∈ seen)) as [Hin|Hnin].
  - (* an alias of a record already popped: the filter drops it *)
    assert (Hstep : record_target (Some la) l h1 = (Ok None, h1)).
    { unfold record_target, mbind, M_bind, get_state.
      rewrite Hh1. unfold popped. rewrite decide_True by done.
      unfold dict_get. by rewrite lookup_delete_eq. }
    destruct (IH seen h1 Hh1 Hok) as (ts & h2 & Hrun & Hheap & Hts).
    exists (None :: ts), h2.
    rewrite (mapM_cons_ok _ _ _ _ _ _ Hstep), Hrun.
    split; [done|]. split.
    + intros l'. rewrite Hheap. apply popped_ext.
      rewrite !elem_of_app, elem_of_cons.
      split; [tauto | intros [[->|?]|?]; auto].
    + cbn [firsts omap list_omap id]. rewrite decide_True by done.
      eapply List.Forall2_impl; [|exact Hts].
      intros l' t Hk k [Hne|[H1 H2]]; apply Hk; [tauto|].
      right. split; [done|]. by apply not_elem_of_cons in H2 as [_ ?].
  - assert (truthy (dict_get (h l) "chat_id") = true) as Htr.
    { destruct (truthy (dict_get (h l) "chat_id")) eqn:E; [done|].
      by apply bad_identifier_falsy in E. }
    destruct (truthy_get_Some _ _ Htr) as (v & Hv & _).
    assert (Hl1 : h1 l = h l).
    { rewrite Hh1. unfold popped. by rewrite decide_False. }
    set (h1' := <[l := delete "chat_id" (h l)]> h1).
    assert (Hstep : record_target (Some la) l h1 =
                    (Ok (Some (dict_update (h l) (h1' la))), h1')).
    { unfold record_target, dict_pop, unpack, mbind, M_bind, get_state,
        modify, mret, M_ret.
      rewrite Hl1, Htr. cbn beta. rewrite Hl1, Hv. cbn beta iota.
      rewrite Hl1. fold h1'.
      replace (h1' l) with (delete "chat_id" (h l)).
      2:{ unfold h1'. by rewrite fn_lookup_insert. }
      by rewrite display_after_pop. }
    assert (Hh1' : ∀ l', h1' l' = popped h (l :: seen) l').
    { intros l'. unfold h1'. destruct (decide (l = l')) as [<-|Hne].
      - rewrite fn_lookup_insert. unfold popped.
        rewrite decide_True; [done | apply elem_of_cons; auto].
      - rewrite fn_lookup_insert_ne by done. rewrite Hh1.
        apply popped_ext. rewrite elem_of_cons.
        split; [tauto | intros [?|?]; [congruence | done]]. }
    destruct (IH (l :: seen) h1' Hh1' Hok) as (ts & h2 & Hrun & Hheap & Hts).
    eexists (Some _ :: ts), h2.
    rewrite (mapM_cons_ok _ _ _ _ _ _ Hstep), Hrun.
    split; [done|]. split.
    + intros l'. rewrite Hheap. apply popped_ext.
      rewrite !elem_of_app, !elem_of_cons. tauto.
    + cbn [firsts omap list_omap id]. rewrite decide_False by done.
      constructor.
      * (* the target of [l]: the defaults are read after the pop *)
        intros k Hk. rewrite dict_update_lookup, Hh1'. unfold popped.
        case_decide as Hla; [|done].
        destruct Hk as [Hne|[H1 H2]].
        -- by rewrite lookup_delete_ne.
        -- apply not_elem_of_cons in H2 as [H2 _].
           apply elem_of_cons in Hla as [Hla|Hla]; done.
      * eapply List.Forall2_impl; [|exact Hts].
        intros l' t Hk k [Hne|[H1 H2]]; apply Hk; [tauto|].
        apply not_elem_of_cons in H2 as [H2 H3].
        right. split; [by apply not_elem_of_cons | done].
Qed.

(** With [args] left at [None], the first record is popped and the
    display then fails on [**args]. *)
Lemma comprehension_None (h : heap) l ls :
  ¬ bad_identifier (h l) →
  mapM (record_target None) (l :: ls) h =
    (Raise TypeError, <[l := delete "chat_id" (h l)]> h).
Proof.
  intros Hl.
  assert (truthy (dict_get (h l) "chat_id") = true) as Htr.
  { destruct (truthy (dict_get (h l) "chat_id")) eqn:E; [done|].
    by apply bad_identifier_falsy in E. }
  destruct (truthy_get_Some _ _ Htr) as (v & Hv & _).
  apply mapM_cons_raise.
  unfold record_target, dict_pop, unpack, mbind, M_bind, get_state,
    modify, mret, M_ret, raise.
  rewrite Htr. cbn beta. by rewrite Hv.
Qed.

End target_set_facts.

Section setup_chats_facts.
Import TargetSet.

Lemma forallb_truthy_inv (h : heap) ls :
  forallb (λ chat, truthy (dict_get (h chat) "chat_id")) ls = true →
  Forall (λ l, ¬ bad_identifier (h l)) ls.
Proof.
  induction ls as [|l ls IH]; [done|]. cbn. intros H.
  destruct (andb_prop _ _ H) as [H1 H2]. constructor; [|auto].
  intros Hbad%bad_identifier_falsy. congruence.
Qed.

Lemma chek_identical_keys_false (h : heap) ls :
  keys_differ h ls → _chek_identical_keys (h <$> ls) = false.
Proof.
  destruct ls as [|l0 rest]; [done|]. intros Hd.
  destruct (_chek_identical_keys (h <$> l0 :: rest)) eqn:E; [|done].
  apply chek_identical_keys_true, Forall_cons_1 in E as [_ E].
  cbn in Hd. apply Exists_exists in Hd as (l & Hl & Hne).
  rewrite Forall_forall in E. destruct Hne. by apply E.
Qed.

Lemma chek_identical_keys_agree (h : heap) ls :
  ¬ keys_differ h ls → _chek_identical_keys (h <$> ls) = true.
Proof.
  destruct ls as [|l0 rest]; [done|]. intros Hd.
  apply chek_identical_keys_true. constructor; [done|].
  apply Forall_forall. intros l Hl.
  destruct (decide (dom (h l) = dom (h l0))) as [|Hne]; [done|].
  destruct Hd. cbn. apply Exists_exists. eauto.
Qed.

Lemma setup_records_bad_id (h : heap) ls args :
  Exists (λ l, bad_identifier (h l)) ls →
  setup_records ls args h = (Raise (ValueError NotAllHaveChatId), h).
Proof.
  intros H. unfold setup_records, mbind, M_bind, get_state.
  by rewrite forallb_truthy_false.
Qed.

Lemma setup_records_keys_differ (h : heap) ls args :
  keys_differ h ls →
  ∃ m, setup_records ls args h = (Raise (ValueError m), h).
Proof.
  intros H. unfold setup_records, mbind, M_bind, get_state.
  destruct (forallb _ ls); cbn [negb]; [|by eexists].
  rewrite chek_identical_keys_false by done. by eexists.
Qed.

(** Past validation, the branch is the comprehension alone. *)
Lemma setup_records_valid (h : heap) ls args :
  Forall (λ l, ¬ bad_identifier (h l)) ls →
  ¬ keys_differ h ls →
  setup_records ls args h =
    match mapM (record_target args) ls h with
    | (Ok ts, h') => (Ok (Some (omap id ts)), h')
    | (Raise e, h') => (Raise e, h')
    end.
Proof.
  intros H1 H2. unfold setup_records, mbind, M_bind, get_state.
  rewrite forallb_truthy_true by done.
  rewrite chek_identical_keys_agree by done. cbn [negb].
  by destruct (mapM (record_target args) ls h) as [[ts|e] h'].
Qed.

(** The three ways the branch can go. *)
Lemma setup_records_cases (h : heap) ls args :
  setup_records ls args h = (Raise (ValueError NotAllHaveChatId), h) ∨
  setup_records ls args h = (Raise (ValueError NotIdenticalKeys), h) ∨
  (Forall (λ l, ¬ bad_identifier (h l)) ls ∧ ¬ keys_differ h ls).
Proof.
  unfold setup_records, mbind, M_bind, get_state.
  destruct (forallb _ ls) eqn:E1; cbn [negb]; [|auto].
  destruct (_chek_identical_keys (h <$> ls)) eqn:E2; cbn [negb]; [|auto].
  right. right. split; [by apply forallb_truthy_inv|].
  intros Hd%chek_identical_keys_false. congruence.
Qed.

Lemma scalar_targets_frame args vs (h : heap) r h' :
  mapM (scalar_target args) vs h = (r, h') → h' = h.
Proof.
  revert r. induction vs as [|v vs IH]; intros r.
  { cbn. unfold mret, M_ret. congruence. }
  destruct args as [la|].
  - rewrite (mapM_cons_ok _ _ _ _ (dict_update {["chat_id" := v]} (h la)) h)
      by reflexivity.
    destruct (mapM (scalar_target (Some la)) vs h) as [[ts|e] h2] eqn:E;
      intros [= <- <-]; eauto.
  - rewrite (mapM_cons_raise _ _ _ _ TypeError h) by reflexivity. congruence.
Qed.

Lemma records_of_dicts xs ls : all_dicts xs = Some ls → records_of (CList xs) = ls.
Proof.
  unfold all_dicts. cbn [records_of]. revert ls.
  induction xs as [|[v|l] xs IH]; intros ls; cbn [mapM omap list_omap].
  - by intros [= <-].
  - discriminate.
  - cbn. destruct (mapM _ xs) as [ls'|]; [|discriminate].
    intros [= <-]. f_equal. by apply IH.
Qed.

Lemma records_of_scalars xs vs : all_scalars xs = Some vs → records_of (CList xs) = [].
Proof.
  unfold all_scalars. cbn [records_of]. revert vs.
  induction xs as [|[v|l] xs IH]; intros vs; cbn [mapM omap list_omap].
  - done.
  - cbn. destruct (is_int_or_str v); [|discriminate]. cbn.
    destruct (mapM _ xs) as [vs'|]; [|discriminate].
    intros _. by eapply IH.
  - discriminate.
Qed.

(** A list that is neither all scalars nor all dictionaries is let
    through: nothing is raised and [self.chats] is not assigned. *)
Lemma setup_chats_mixed xs args (h : heap) :
  all_scalars xs = None → all_dicts xs = None →
  _setup_chats (CList xs) args h = (Ok None, h).
Proof. intros H1 H2. cbn. by rewrite H1, H2. Qed.

Lemma setup_chats_records ls args (h : heap) :
  ls ≠ [] →
  _setup_chats (CList (IDict <$> ls)) args h = setup_records ls args h.
Proof.
  destruct ls as [|l ls]; [done|]. intros _.
  unfold _setup_chats. by rewrite all_scalars_records, all_dicts_records.
Qed.

End setup_chats_facts.

(** ** Claims about construction *)

Section construction.
Import TargetSet Broadcaster.

Lemma init_raise lib reg input args kw (h : heap) e h' :
  _setup_chats input args h = (Raise e, h') →
  __init__ lib reg input args kw h = (Raise e, h').
Proof. intros H. unfold __init__. by erewrite bind_raise by exact H. Qed.

Lemma init_ok lib reg input args kw (h : heap) cs h' bt :
  _setup_chats input args h = (Ok cs, h') →
  _setup_bot lib (kw_bot kw) (kw_bot_token kw) = Ok bt →
  ∃ b, __init__ lib reg input args kw h = (Ok b, h') ∧
       chats b = cs ∧ _is_running b = false ∧
       _successful b = [] ∧ _failure b = [] ∧
       timeout b = kw_timeout kw ∧ _id b = length reg.
Proof.
  intros H Hb. unfold __init__. erewrite bind_ok by exact H.
  unfold lift, mbind, M_bind, mret, M_ret. rewrite Hb.
  eexists. split; [reflexivity|]. done.
Qed.

Lemma setup_bot_instance lib bt :
  _setup_bot lib (Some bt) None = Ok bt.
Proof. reflexivity. Qed.

(** C2. For structured-record input, the built targets are, in order, one
    per distinct record, and each target maps a key to the defaults' value
    when the defaults have the key and to the record's own value otherwise:
    on a collision the shared default wins.  This holds for every key; for
    the identifier key it supposes that the defaults mapping is not itself
    one of the records, whose identifier field is popped on the way. *)
Theorem merge_precedence (h : heap) ls la ts h' :
  _setup_chats (CList (IDict <$> ls)) (Some la) h = (Ok (Some ts), h') →
  Forall2 (λ l (t : dict), ∀ k,
             k ≠ "chat_id" ∨ (la ∉ ls) →
             t !! k = match h la !! k with
                      | Some v => Some v
                      | None => h l !! k
                      end)
          (firsts [] ls) ts.
Proof.
  intros Hrun. destruct (decide (ls = [])) as [->|Hne].
  { cbn in Hrun. injection Hrun as <- _. constructor. }
  rewrite setup_chats_records in Hrun by done.
  destruct (setup_records_cases h ls (Some la)) as [E|[E|[Hgood Hkeys]]];
    [congruence..|].
  rewrite setup_records_valid in Hrun by done.
  destruct (comprehension_spec h la ls [] h) as (ts0 & h2 & E & _ & Hts);
    [done..|].
  rewrite E in Hrun. injection Hrun as <- _.
  eapply List.Forall2_impl; [|exact Hts].
  intros l t Hk k [Hne'|Hla]; apply Hk; [tauto|].
  right. split; [apply not_elem_of_nil | done].
Qed.

(** P4 of the specification: the record [{chat_id: 5, opt: "a"}] with the
    defaults [{opt: "b"}] gives [{chat_id: 5, opt: "b"}]. *)
Lemma merge_precedence_example :
  _setup_chats (CList [IDict 0]) (Some 1) example_heap =
    (Ok (Some [{["chat_id" := VInt 5; "opt" := VStr "b"]}]),
     snd (_setup_chats (CList [IDict 0]) (Some 1) example_heap)) ∧
  Forall2 (λ l (t : dict), ∀ k,
             k ≠ "chat_id" ∨ (1 ∉ [0]) →
             t !! k = match example_heap 1 !! k with
                      | Some v => Some v
                      | None => example_heap l !! k
                      end)
          (firsts [] [0]) [{["chat_id" := VInt 5; "opt" := VStr "b"]}].
Proof.
  split; [by vm_compute|].
  apply (merge_precedence example_heap [0] 1 _
           (snd (_setup_chats (CList [IDict 0]) (Some 1) example_heap))).
  by vm_compute.
Defined.

(** C5. For structured-record input with a defaults mapping: a record
    without the identifier field or with a falsy identifier (zero and the
    empty string included) makes construction fail with the
    missing-identifier [ValueError]; records whose field names differ from
    the first record's make it fail with a [ValueError]; in both cases
    nothing is changed.  Otherwise the target sequence is built. *)
Theorem record_validation (h : heap) ls la :
  (Exists (λ l, bad_identifier (h l)) ls →
     _setup_chats (CList (IDict <$> ls)) (Some la) h =
       (Raise (ValueError NotAllHaveChatId), h)) ∧
  (keys_differ h ls →
     ∃ m, _setup_chats (CList (IDict <$> ls)) (Some la) h =
            (Raise (ValueError m), h)) ∧
  (Forall (λ l, ¬ bad_identifier (h l)) ls → ¬ keys_differ h ls →
     ∃ ts h', _setup_chats (CList (IDict <$> ls)) (Some la) h =
                (Ok (Some ts), h')).
Proof.
  split; [|split].
  - intros H. rewrite setup_chats_records by (by destruct H).
    by apply setup_records_bad_id.
  - intros H. rewrite setup_chats_records by (by destruct ls).
    by apply setup_records_keys_differ.
  - intros H1 H2. destruct (decide (ls = [])) as [->|Hne].
    { by exists [], h. }
    rewrite setup_chats_records, setup_records_valid by done.
    destruct (comprehension_spec h la ls [] h) as (ts0 & h2 & E & _);
      [done..|].
    rewrite E. eauto.
Qed.

(** The three parts at work on the example store: a zero identifier, a
    record with other field names, and two well-formed records. *)
Lemma record_validation_examples :
  (Exists (λ l, bad_identifier (example_heap l)) [0; 3] ∧
   _setup_chats (CList (IDict <$> [0; 3])) (Some 1) example_heap =
     (Raise (ValueError NotAllHaveChatId), example_heap)) ∧
  (keys_differ example_heap [0; 2] ∧
   ∃ m, _setup_chats (CList (IDict <$> [0; 2])) (Some 1) example_heap =
          (Raise (ValueError m), example_heap)) ∧
  (Forall (λ l, ¬ bad_identifier (example_heap l)) [0; 4] ∧
   ¬ keys_differ example_heap [0; 4] ∧
   ∃ ts h', _setup_chats (CList (IDict <$> [0; 4])) (Some 1) example_heap =
              (Ok (Some ts), h')).
Proof.
  assert (Hbad : Exists (λ l, bad_identifier (example_heap l)) [0; 3]).
  { apply Exists_cons_tl, Exists_cons_hd.
    right; right; right; left. by vm_compute. }
  assert (Hdiff : keys_differ example_heap [0; 2]).
  { apply Exists_cons_hd. intros H.
    assert ("opt" ∈ dom (example_heap 2)) as Hin.
    { rewrite H. by apply elem_of_dom. }
    apply elem_of_dom in Hin as [v Hv]. by vm_compute in Hv. }
  assert (Hgood : Forall (λ l, ¬ bad_identifier (example_heap l)) [0; 4]).
  { repeat constructor; intros Hb%bad_identifier_falsy; by vm_compute in Hb. }
  assert (Hsame : ¬ keys_differ example_heap [0; 4]).
  { intros Hd%chek_identical_keys_false. by vm_compute in Hd. }
  split; [|split].
  - split; [done|]. by apply (record_validation example_heap [0; 3] 1).
  - split; [done|]. by apply (record_validation example_heap [0; 2] 1).
  - split; [done|]. split; [done|].
    by apply (record_validation example_heap [0; 4] 1).
Defined.

(** The shapes that are not lists are rejected. *)
Lemma setup_chats_unsupported args (h : heap) :
  _setup_chats (CVal VNone) args h = (Raise (AttributeError ExpectedChatsType), h) ∧
  ∀ l, _setup_chats (CDict l) args h = (Raise (AttributeError ExpectedChatsType), h).
Proof. done. Qed.

(** C7, as stated, fails: building the target for the record at address
    0 removes the identifier field from the caller's own dictionary. *)
Lemma records_are_mutated :
  fst (_setup_chats (CList [IDict 0]) (Some 1) example_heap) =
    Ok (Some [{["chat_id" := VInt 5; "opt" := VStr "b"]}]) ∧
  example_heap 0 = {["chat_id" := VInt 5; "opt" := VStr "a"]} ∧
  snd (_setup_chats (CList [IDict 0]) (Some 1) example_heap) 0 =
    {["opt" := VStr "a"]} ∧
  snd (_setup_chats (CList [IDict 0]) (Some 1) example_heap) 0 ≠ example_heap 0.
Proof.
  split; [by vm_compute|]. split; [done|]. split; [by vm_compute|].
  intros H. apply (f_equal (λ d : dict, d !! "chat_id")) in H.
  by vm_compute in H.
Qed.

(** C7, amended.  [_setup_chats] is a function of its input.  It changes
    no dictionary other than the records of the target specification, and
    a record only by removing its identifier field.  It changes nothing
    when the input has no records, and nothing when it raises a
    [ValueError] or an [AttributeError].  When a target sequence is built,
    every record of the input has lost its identifier field. *)
Theorem construction_frame input args (h : heap) r h' :
  _setup_chats input args h = (r, h') →
  (∀ r2 h2, _setup_chats input args h = (r2, h2) → r2 = r ∧ h2 = h') ∧
  (∀ l, l ∉ records_of input → h' l = h l) ∧
  (∀ l, h' l = h l ∨ h' l = delete "chat_id" (h l)) ∧
  (records_of input = [] → ∀ l, h' l = h l) ∧
  ((∃ m, r = Raise (ValueError m)) ∨ (∃ m, r = Raise (AttributeError m)) →
     ∀ l, h' l = h l) ∧
  (∀ ts, r = Ok (Some ts) →
     ∀ l, l ∈ records_of input → h' l = delete "chat_id" (h l)).
Proof.
  intros Hrun. split; [intros r2 h2; rewrite Hrun; by intros [= <- <-]|].
  (* either nothing changed, or the comprehension ran on valid records *)
  cut (((∀ l, h' l = h l) ∧ (∀ ts, r = Ok (Some ts) → records_of input = [])) ∨
       (∃ l0 ls, records_of input = l0 :: ls ∧
          ((∃ ts, r = Ok (Some ts) ∧ ∀ l, h' l = popped h (l0 :: ls) l) ∨
           (r = Raise TypeError ∧ ∀ l, h' l = popped h [l0] l)))).
  { intros [[Hsame Hnil]|(l0 & ls & Hrec & [(ts & -> & Hpop)|(-> & Hpop)])].
    - repeat split; auto.
      intros ts -> l Hl. rewrite (Hnil ts) in Hl by done.
      by apply not_elem_of_nil in Hl.
    - rewrite Hrec. repeat split.
      + intros l Hl. rewrite Hpop. unfold popped. by rewrite decide_False.
      + intros l. rewrite Hpop. unfold popped. case_decide; auto.
      + discriminate.
      + intros [[m [=]]|[m [=]]].
      + intros ts' _ l Hl. rewrite Hpop. unfold popped. by rewrite decide_True.
    - rewrite Hrec. repeat split.
      + intros l Hl. rewrite Hpop. unfold popped.
        rewrite decide_False; [done|]. intros ->%list_elem_of_singleton.
        apply Hl, elem_of_cons. auto.
      + intros l. rewrite Hpop. unfold popped. case_decide; auto.
      + discriminate.
      + intros [[m [=]]|[m [=]]].
      + intros ts' [=]. }
  destruct input as [v|l|xs]; cbn [_setup_chats] in Hrun.
  - left. destruct (is_int_or_str v), args as [la|];
      injection Hrun as <- <-; by split.
  - left. injection Hrun as <- <-. by split.
  - destruct (all_scalars xs) as [vs|] eqn:Es.
    { left. rewrite (records_of_scalars _ _ Es).
      destruct (mapM (scalar_target args) vs h) as [r0 h0] eqn:E.
      apply scalar_targets_frame in E as Hh0. subst h0.
      destruct r0 as [ts0|e].
      - erewrite bind_ok in Hrun by exact E.
        injection Hrun as <- <-. by split.
      - erewrite bind_raise in Hrun by exact E.
        injection Hrun as <- <-. by split. }
    destruct (all_dicts xs) as [ls|] eqn:Ed.
    2:{ left. injection Hrun as <- <-. by split. }
    rewrite (records_of_dicts _ _ Ed).
    destruct (setup_records_cases h ls args) as [E|[E|[Hgood Hkeys]]].
    { left. rewrite E in Hrun. injection Hrun as <- <-. by split. }
    { left. rewrite E in Hrun. injection Hrun as <- <-. by split. }
    rewrite setup_records_valid in Hrun by done.
    destruct ls as [|l0 ls].
    { left. injection Hrun as <- <-. by split. }
    right. exists l0, ls. split; [done|].
    destruct args as [la|].
    + destruct (comprehension_spec h la (l0 :: ls) [] h)
        as (ts0 & h2 & E & Hpop & _); [done..|].
      rewrite E in Hrun. injection Hrun as <- <-.
      left. eexists. split; [done|].
      intros l. rewrite Hpop. by rewrite app_nil_r.
    + apply Forall_cons_1 in Hgood as [Hl0 _].
      rewrite comprehension_None in Hrun by done.
      injection Hrun as <- <-. right. split; [done|].
      intros l. unfold popped. destruct (decide (l0 = l)) as [<-|Hne].
      * rewrite fn_lookup_insert, decide_True; [done|].
        by apply list_elem_of_singleton.
      * rewrite fn_lookup_insert_ne by done.
        rewrite decide_False; [done|].
        by intros ->%list_elem_of_singleton.
Qed.

(** The frame property on the example store: the defaults at address 1
    are not among the records, and are left as they were. *)
Lemma construction_frame_example :
  _setup_chats (CList [IDict 0]) (Some 1) example_heap =
    (fst (_setup_chats (CList [IDict 0]) (Some 1) example_heap),
     snd (_setup_chats (CList [IDict 0]) (Some 1) example_heap)) ∧
  snd (_setup_chats (CList [IDict 0]) (Some 1) example_heap) 1 = example_heap 1.
Proof.
  split; [reflexivity|].
  destruct (construction_frame (CList [IDict 0]) (Some 1) example_heap
              (fst (_setup_chats (CList [IDict 0]) (Some 1) example_heap))
              (snd (_setup_chats (CList [IDict 0]) (Some 1) example_heap))
              eq_refl) as (_ & Hframe & _).
  apply Hframe. by intros [=]%list_elem_of_singleton.
Defined.

(** C10, as stated, fails at the empty list of targets: no dict display
    is evaluated, so the missing defaults are never unpacked, and
    construction succeeds with an empty target sequence. *)
Lemma empty_list_needs_no_defaults :
  ∃ b, __init__ no_ambient_bot [] (CList []) None (kwargs_with_bot 7)
         example_heap = (Ok b, example_heap) ∧
       chats b = Some [].
Proof.
  destruct (init_ok no_ambient_bot [] (CList []) None (kwargs_with_bot 7)
              example_heap (Some []) example_heap 7)
    as (b & Hb & Hc & _); [reflexivity..|]. eauto.
Qed.

(** C10, amended.  With the defaults left at [None], construction raises
    for a scalar identifier, for a non-empty list of scalar identifiers
    and for a non-empty list of records: a [TypeError] from unpacking
    [None], or the [ValueError] of record validation.  For the empty list
    it succeeds, with an empty target sequence, whenever the bot
    arguments are accepted. *)
Theorem defaults_required_when_nonempty lib reg input kw (h : heap) :
  (nonempty_spec input →
     ∃ e h', __init__ lib reg input None kw h = (Raise e, h') ∧
             (e = TypeError ∨ ∃ m, e = ValueError m)) ∧
  (∀ bt, _setup_bot lib (kw_bot kw) (kw_bot_token kw) = Ok bt →
     ∃ b, __init__ lib reg (CList []) None kw h = (Ok b, h) ∧
          chats b = Some []).
Proof.
  split.
  - intros Hspec.
    cut (∃ e h', _setup_chats input None h = (Raise e, h') ∧
                 (e = TypeError ∨ ∃ m, e = ValueError m)).
    { intros (e & h' & E & He). exists e, h'. split; [|done].
      by apply init_raise. }
    destruct Hspec as [v Hv|v vs Hvs|l ls].
    + exists TypeError, h. split; [|auto]. cbn. by rewrite Hv.
    + exists TypeError, h. split; [|auto].
      unfold _setup_chats. rewrite all_scalars_vals by done.
      apply bind_raise. by apply mapM_cons_raise.
    + rewrite setup_chats_records by done.
      destruct (setup_records_cases h (l :: ls) None) as [E|[E|[Hgood Hkeys]]].
      * eauto 8.
      * eauto 8.
      * rewrite setup_records_valid by done.
        apply Forall_cons_1 in Hgood as [Hl _].
        rewrite comprehension_None by done. eauto 8.
  - intros bt Hbt.
    destruct (init_ok lib reg (CList []) None kw h (Some []) h bt)
      as (b & Hb & Hc & _); [reflexivity|done|]. eauto.
Qed.

(** The amended claim at the scalar identifier 5 and at the empty list. *)
Lemma defaults_required_example :
  (nonempty_spec (CVal (VInt 5)) ∧
   ∃ e h', __init__ no_ambient_bot [] (CVal (VInt 5)) None (kwargs_with_bot 7)
             example_heap = (Raise e, h') ∧
           (e = TypeError ∨ ∃ m, e = ValueError m)) ∧
  (_setup_bot no_ambient_bot (kw_bot (kwargs_with_bot 7))
     (kw_bot_token (kwargs_with_bot 7)) = Ok 7 ∧
   ∃ b, __init__ no_ambient_bot [] (CList []) None (kwargs_with_bot 7)
          example_heap = (Ok b, example_heap) ∧
        chats b = Some []).
Proof.
  destruct (defaults_required_when_nonempty no_ambient_bot [] (CVal (VInt 5))
              (kwargs_with_bot 7) example_heap) as [Hraise Hempty].
  split.
  - split; [by constructor|]. apply Hraise. by constructor.
  - split; [reflexivity|]. by apply (Hempty 7).
Defined.

End construction.

(** ** The run loop *)

Section run_facts.
Import Broadcaster.
Context {W : Type} (send : pyval → dict → M W pyval) (this : loc).

Lemma str_running b cs :
  _is_running b = true → chats b = Some cs →
  __str__ b = Ok {| st_id := _id b; st_is_running := true;
                    st_progress := Some (length (_successful b), length cs) |}.
Proof.
  intros Hr Hc. unfold __str__, successful, get_chats. by rewrite Hr, Hc.
Qed.

(** One round of the loop when [send] returns. *)
Lemma run_body_ok w t v d1 cs :
  _is_running (self w) = true → chats (self w) = Some cs →
  send (dict_get t "chat_id") t (delivery w) = (Ok v, d1) →
  ∃ line,
    run_body send t w =
      (Ok tt,
       {| self := (if truthy v then append_successful (dict_get t "chat_id")
                   else append_failure t) (self w);
          running := running w;
          events := events w ++ [ELogInfo (LogStatus line);
                                 ESend (dict_get t "chat_id") t;
                                 ESleep (timeout (self w))];
          delivery := d1 |}).
Proof.
  intros Hr Hc Hs. eexists.
  unfold run_body, await_send, in_delivery, emit, on_self, lift, modify,
    get_state, _parse_args, mbind, M_bind, mret, M_ret.
  rewrite (str_running _ _ Hr Hc). cbn. rewrite Hs.
  destruct (truthy v); cbn; by rewrite <-!app_assoc.
Qed.

(** One round of the loop when [send] raises. *)
Lemma run_body_raise w t e d1 cs :
  _is_running (self w) = true → chats (self w) = Some cs →
  send (dict_get t "chat_id") t (delivery w) = (Raise e, d1) →
  ∃ line,
    run_body send t w =
      (Raise e,
       {| self := self w;
          running := running w;
          events := events w ++ [ELogInfo (LogStatus line);
                                 ESend (dict_get t "chat_id") t];
          delivery := d1 |}).
Proof.
  intros Hr Hc Hs. eexists.
  unfold run_body, await_send, in_delivery, emit, on_self, lift, modify,
    get_state, _parse_args, mbind, M_bind, mret, M_ret.
  rewrite (str_running _ _ Hr Hc). cbn. rewrite Hs.
  by rewrite <-!app_assoc.
Qed.

Lemma succ_ids_cons t ts v vs :
  succ_ids (t :: ts) (v :: vs) =
    if truthy v then dict_get t "chat_id" :: succ_ids ts vs else succ_ids ts vs.
Proof.
  unfold succ_ids. cbn [zip zip_with]. rewrite filter_cons. cbn [snd].
  destruct (truthy v); [by rewrite decide_True | by rewrite decide_False].
Qed.

Lemma fail_targets_cons t ts v vs :
  fail_targets (t :: ts) (v :: vs) =
    if truthy v then fail_targets ts vs else t :: fail_targets ts vs.
Proof.
  unfold fail_targets. cbn [zip zip_with]. rewrite filter_cons. cbn [snd].
  destruct (truthy v); [by rewrite decide_False | by rewrite decide_True].
Qed.

Lemma with_outcomes_nil b : with_outcomes [] [] b = b.
Proof. destruct b. unfold with_outcomes. cbn. by rewrite !app_nil_r. Qed.

Lemma with_outcomes_append_successful x s f b :
  with_outcomes s f (append_successful x b) = with_outcomes (x :: s) f b.
Proof. unfold with_outcomes. cbn. by rewrite <-app_assoc. Qed.

Lemma with_outcomes_append_failure x s f b :
  with_outcomes s f (append_failure x b) = with_outcomes s (x :: f) b.
Proof. unfold with_outcomes. cbn. by rewrite <-app_assoc. Qed.

Lemma non_log_app evs1 evs2 : non_log (evs1 ++ evs2) = non_log evs1 ++ non_log evs2.
Proof.
  unfold non_log. induction evs1 as [|e evs1 IH]; [done|].
  cbn [app]. rewrite !filter_cons. case_decide; [|done].
  cbn [app]. by f_equal.
Qed.

Lemma sleeps_app evs1 evs2 : sleeps (evs1 ++ evs2) = sleeps evs1 ++ sleeps evs2.
Proof. apply omap_app. Qed.

(** The loop of [run], for any outcome of the deliveries: the targets
    delivered before the first exception are recorded in the two logs, each
    is followed by one sleep, and an exception of [send] ends the loop. *)
Lemma run_loop ts : ∀ w vs e d' cs,
  _is_running (self w) = true → chats (self w) = Some cs →
  deliveries send ts (delivery w) = (vs, e, d') →
  ∃ new,
    for_each (run_body send) ts w =
      (match e with None => Ok tt | Some x => Raise x end,
       {| self := with_outcomes (succ_ids ts vs) (fail_targets ts vs) (self w);
          running := running w;
          events := events w ++ new;
          delivery := d' |}) ∧
    non_log new =
      flat_map (send_then_sleep (timeout (self w))) (take (length vs) ts) ++
      match e, ts !! length vs with
      | Some _, Some t => [ESend (dict_get t "chat_id") t]
      | _, _ => []
      end ∧
    sleeps new = replicate (length vs) (timeout (self w)) ∧
    (e = None → length vs = length ts).
Proof.
  induction ts as [|t ts IH]; intros w vs e d' cs Hr Hc Hd.
  { injection Hd as <- <- <-. exists []. cbn.
    rewrite with_outcomes_nil, app_nil_r. by destruct w. }
  cbn [deliveries] in Hd.
  destruct (send (dict_get t "chat_id") t (delivery w)) as [[v|x] d1] eqn:Hs.
  - destruct (deliveries send ts d1) as [[vs1 e1] d2] eqn:Hd1.
    injection Hd as <- <- <-.
    destruct (run_body_ok w t v d1 cs Hr Hc Hs) as (line & Hbody).
    set (w1 := {| self := (if truthy v
                           then append_successful (dict_get t "chat_id")
                           else append_failure t) (self w);
                  running := running w;
                  events := events w ++ [ELogInfo (LogStatus line);
                                         ESend (dict_get t "chat_id") t;
                                         ESleep (timeout (self w))];
                  delivery := d1 |}) in Hbody.
    assert (Hr1 : _is_running (self w1) = true) by (cbn; by destruct (truthy v)).
    assert (Hc1 : chats (self w1) = Some cs) by (cbn; by destruct (truthy v)).
    assert (Ht1 : timeout (self w1) = timeout (self w))
      by (cbn; by destruct (truthy v)).
    destruct (IH w1 vs1 e1 d2 cs Hr1 Hc1 Hd1) as (new & Hloop & Hnl & Hsl & Hlen).
    exists ([ELogInfo (LogStatus line); ESend (dict_get t "chat_id") t;
             ESleep (timeout (self w))] ++ new).
    split; [|split; [|split]].
    + cbn [for_each]. erewrite bind_ok by exact Hbody. rewrite Hloop.
      f_equal. rewrite succ_ids_cons, fail_targets_cons. unfold w1.
      cbn [self running events delivery]. rewrite <-app_assoc. f_equal.
      destruct (truthy v);
        [apply with_outcomes_append_successful | apply with_outcomes_append_failure].
    + rewrite non_log_app, Hnl, Ht1. done.
    + rewrite sleeps_app, Hsl, Ht1. done.
    + intros He. cbn. f_equal. auto.
  - injection Hd as <- <- <-.
    destruct (run_body_raise w t x d1 cs Hr Hc Hs) as (line & Hbody).
    exists [ELogInfo (LogStatus line); ESend (dict_get t "chat_id") t].
    split; [|split; [|split]]; [|done..].
    cbn [for_each]. erewrite bind_raise by exact Hbody.
    replace (succ_ids (t :: ts) []) with (@nil pyval) by done.
    replace (fail_targets (t :: ts) []) with (@nil dict) by done.
    by rewrite with_outcomes_nil.
Qed.

Lemma get_chats_Some b cs : chats b = Some cs → get_chats b = Ok cs.
Proof. intros H. unfold get_chats. by rewrite H. Qed.

(** Removing [x] from a list it was just appended to always succeeds, and
    gives back the list itself when [x] was not in it before. *)
Lemma list_remove_appended x l :
  ∃ l', list_remove x (l ++ [x]) = Some l' ∧
        length l' = length l ∧ (x ∉ l → l' = l).
Proof.
  induction l as [|y l (l' & IH & Hlen & Hl')]; cbn.
  - rewrite decide_True by done. eauto.
  - destruct (decide (x = y)) as [->|Hne].
    + eexists. split; [done|]. split; [by rewrite length_app, Nat.add_comm|].
      intros []. by left.
    + rewrite IH. eexists. split; [done|]. split; [by cbn; f_equal|].
      intros [_ Hx]%not_elem_of_cons. cbn. f_equal. auto.
Qed.

(** What [run] does, for any outcome of the deliveries. *)
Lemma run_spec w cs vs e d' :
  chats (self w) = Some cs →
  deliveries send cs (delivery w) = (vs, e, d') →
  ∃ new reg' w',
    run send this w = (match e with None => Ok tt | Some x => Raise x end, w') ∧
    list_remove this (running w ++ [this]) = Some reg' ∧
    self w' = set_is_running (match e with None => false | Some _ => true end)
                (with_outcomes (succ_ids cs vs) (fail_targets cs vs) (self w)) ∧
    running w' = match e with None => reg' | Some _ => running w ++ [this] end ∧
    events w' = events w ++ new ++
                match e with
                | None => [ELogInfo (LogSummary
                             (length (_successful (self w) ++ succ_ids cs vs))
                             (length cs))]
                | Some _ => []
                end ∧
    delivery w' = d' ∧
    non_log new =
      flat_map (send_then_sleep (timeout (self w))) (take (length vs) cs) ++
      match e, cs !! length vs with
      | Some _, Some t => [ESend (dict_get t "chat_id") t]
      | _, _ => []
      end ∧
    sleeps new = replicate (length vs) (timeout (self w)) ∧
    (e = None → length vs = length cs).
Proof.
  intros Hc Hd.
  set (w1 := {| self := set_is_running true (self w);
                running := running w ++ [this];
                events := events w; delivery := delivery w |}).
  destruct (run_loop cs w1 vs e d' cs) as (new & Hloop & Hnl & Hsl & Hlen);
    [done..|].
  destruct (list_remove_appended this (running w)) as (reg' & Hrem & _).
  exists new, reg'.
  unfold run.
  erewrite bind_ok by reflexivity.
  erewrite bind_ok by reflexivity.
  erewrite bind_ok by reflexivity.
  erewrite bind_ok
    by (unfold lift; erewrite get_chats_Some by exact Hc; reflexivity).
  fold w1. destruct e as [x|].
  - erewrite bind_raise by exact Hloop.
    eexists. split; [reflexivity|]. cbn. repeat split; try done.
    by rewrite app_nil_r.
  - erewrite bind_ok by exact Hloop.
    erewrite bind_ok by reflexivity.
    erewrite bind_ok.
    2:{ unfold running_remove, get_state, modify, mbind, M_bind. cbn.
        rewrite Hrem. reflexivity. }
    erewrite bind_ok by reflexivity.
    erewrite bind_ok
    by (unfold lift; erewrite get_chats_Some by exact Hc; reflexivity).
    eexists. split; [reflexivity|]. cbn. repeat split; try done.
    by rewrite <-app_assoc.
Qed.

End run_facts.

(** ** Claims about runs and outcomes *)

Section dispatcher.
Import TargetSet Broadcaster.
Context {W : Type} (send : pyval → dict → M W pyval) (this : loc).

(** A run of a broadcaster whose [chats] attribute was never assigned
    stops at [self.chats], after the flag is set and the broadcaster is
    registered. *)
Lemma run_no_chats (w : world W) :
  chats (self w) = None →
  run send this w =
    (Raise (AttributeError (NoAttribute "chats")),
     {| self := set_is_running true (self w);
        running := running w ++ [this];
        events := events w; delivery := delivery w |}).
Proof.
  intros Hc. unfold run.
  erewrite bind_ok by reflexivity.
  erewrite bind_ok by reflexivity.
  erewrite bind_ok by reflexivity.
  erewrite bind_raise; [reflexivity|].
  unfold lift, get_chats. cbn. by rewrite Hc.
Qed.

Lemma init_inv lib reg input args kw (h : heap) b h' :
  __init__ lib reg input args kw h = (Ok b, h') →
  _is_running b = false ∧ _successful b = [] ∧ _failure b = [].
Proof.
  unfold __init__. intros (cs & h1 & _ & H)%bind_inv_ok.
  apply bind_inv_ok in H as (bt & h2 & _ & H).
  by injection H as <- _.
Qed.

Lemma run_ok_inv (w w' : world W) :
  run send this w = (Ok tt, w') → _is_running (self w') = false.
Proof.
  intros Hrun. destruct (chats (self w)) as [cs|] eqn:Hc.
  - destruct (deliveries send cs (delivery w)) as [[vs e] d'] eqn:Hd.
    destruct (run_spec send this w cs vs e d' Hc Hd)
      as (new & reg' & w2 & Hrun2 & _ & Hself & _).
    rewrite Hrun in Hrun2. destruct e; [discriminate|].
    injection Hrun2 as <-. by rewrite Hself.
  - rewrite run_no_chats in Hrun by done. discriminate.
Qed.

Lemma total_suspension_replicate n q evs :
  sleeps evs = replicate n q →
  (total_suspension evs == inject_Z (Z.of_nat n) * q)%Q.
Proof.
  unfold total_suspension. intros ->. induction n as [|n IH].
  - cbn. ring.
  - cbn [replicate foldr]. rewrite IH, Nat2Z.inj_succ. unfold Z.succ.
    rewrite inject_Z_plus. ring.
Qed.

(** C1, amended.  The accessor raises [RunningError] exactly when the
    broadcaster is not running at the moment of the access, and returns the
    log of successes exactly when it is.  It therefore raises on a
    broadcaster fresh from the constructor and on one whose run has
    completed, and returns on one whose run is under way (here: was left
    under way by an exception of [send]). *)
Theorem successful_only_while_running :
  (∀ b, successful b = Raise (RunningError false) ↔ _is_running b = false) ∧
  (∀ b, successful b = Ok (_successful b) ↔ _is_running b = true) ∧
  (∀ lib reg input args kw (h : heap) b h',
     __init__ lib reg input args kw h = (Ok b, h') →
     successful b = Raise (RunningError false)) ∧
  (∀ w w' : world W,
     run send this w = (Ok tt, w') →
     successful (self w') = Raise (RunningError false)) ∧
  (∀ (w : world W) cs vs x d',
     chats (self w) = Some cs →
     deliveries send cs (delivery w) = (vs, Some x, d') →
     ∃ w', run send this w = (Raise x, w') ∧
           successful (self w') = Ok (_successful (self w) ++ succ_ids cs vs)).
Proof.
  assert (Hoff : ∀ b, _is_running b = false →
                      successful b = Raise (RunningError false)).
  { intros b Hb. unfold successful. by rewrite Hb. }
  split; [|split; [|split; [|split]]].
  - intros b. split; [|apply Hoff].
    unfold successful. by destruct (_is_running b).
  - intros b. unfold successful. by destruct (_is_running b).
  - intros lib reg input args kw h b h' Hinit.
    apply Hoff. by apply init_inv in Hinit as [? _].
  - intros w w' Hrun. by apply Hoff, run_ok_inv with w.
  - intros w cs vs x d' Hc Hd.
    destruct (run_spec send this w cs vs (Some x) d' Hc Hd)
      as (new & reg' & w' & Hrun & _ & Hself & _).
    exists w'. split; [done|]. by rewrite Hself.
Qed.

(** C4. When every delivery of a run returns, the run completes, and on a
    broadcaster whose logs were empty the log of successes then holds the
    identifiers of the targets whose delivery returned a truthy value, in
    the order of the targets, and the log of failures holds the targets
    whose delivery returned a falsy value. *)
Theorem outcomes_recorded (w : world W) cs vs d' :
  chats (self w) = Some cs →
  _successful (self w) = [] → _failure (self w) = [] →
  deliveries send cs (delivery w) = (vs, None, d') →
  ∃ w', run send this w = (Ok tt, w') ∧
        length vs = length cs ∧
        _successful (self w') = succ_ids cs vs ∧
        _failure (self w') = fail_targets cs vs.
Proof.
  intros Hc Hs Hf Hd.
  destruct (run_spec send this w cs vs None d' Hc Hd)
    as (new & reg' & w' & Hrun & _ & Hself & _ & _ & _ & _ & _ & Hlen).
  exists w'. split; [done|]. split; [auto|].
  rewrite Hself. cbn. by rewrite Hs, Hf.
Qed.

(** C6. When [send] raises on some target, the exception leaves [run],
    and afterwards [_is_running] is still [True] and the broadcaster is
    still in [running], where [run] appended it. *)
Theorem delivery_exception_propagates (w : world W) cs vs x d' :
  chats (self w) = Some cs →
  deliveries send cs (delivery w) = (vs, Some x, d') →
  ∃ w', run send this w = (Raise x, w') ∧
        _is_running (self w') = true ∧
        running w' = running w ++ [this] ∧
        this ∈ running w'.
Proof.
  intros Hc Hd.
  destruct (run_spec send this w cs vs (Some x) d' Hc Hd)
    as (new & reg' & w' & Hrun & _ & Hself & Hreg & _).
  exists w'. split; [done|]. split; [by rewrite Hself|]. split; [done|].
  rewrite Hreg. apply elem_of_app. right. by apply list_elem_of_singleton.
Qed.

(** C8. The constructor leaves both logs empty.  Whatever a run does, the
    logs it finds are a prefix of the logs it leaves.  And when two runs
    complete one after the other, the second appends its outcomes to the
    logs the first one left. *)
Theorem outcomes_accumulate :
  (∀ lib reg input args kw (h : heap) b h',
     __init__ lib reg input args kw h = (Ok b, h') →
     _successful b = [] ∧ _failure b = []) ∧
  (∀ (w : world W) r w',
     run send this w = (r, w') →
     _successful (self w) `prefix_of` _successful (self w') ∧
     _failure (self w) `prefix_of` _failure (self w')) ∧
  (∀ (w : world W) cs vs1 d1 vs2 d2,
     chats (self w) = Some cs →
     deliveries send cs (delivery w) = (vs1, None, d1) →
     deliveries send cs d1 = (vs2, None, d2) →
     ∃ w1 w2,
       run send this w = (Ok tt, w1) ∧
       run send this w1 = (Ok tt, w2) ∧
       _successful (self w1) = _successful (self w) ++ succ_ids cs vs1 ∧
       _failure (self w1) = _failure (self w) ++ fail_targets cs vs1 ∧
       _successful (self w2) = _successful (self w1) ++ succ_ids cs vs2 ∧
       _failure (self w2) = _failure (self w1) ++ fail_targets cs vs2).
Proof.
  split; [|split].
  - intros lib reg input args kw h b h' Hinit.
    by apply init_inv in Hinit as (_ & ? & ?).
  - intros w r w' Hrun. destruct (chats (self w)) as [cs|] eqn:Hc.
    + destruct (deliveries send cs (delivery w)) as [[vs e] d'] eqn:Hd.
      destruct (run_spec send this w cs vs e d' Hc Hd)
        as (new & reg' & w2 & Hrun2 & _ & Hself & _).
      rewrite Hrun in Hrun2. injection Hrun2 as _ ->. rewrite Hself. cbn.
      split; by eexists.
    + rewrite run_no_chats in Hrun by done. by injection Hrun as _ <-.
  - intros w cs vs1 d1 vs2 d2 Hc Hd1 Hd2.
    destruct (run_spec send this w cs vs1 None d1 Hc Hd1)
      as (new1 & reg1 & w1 & Hrun1 & _ & Hself1 & _ & _ & Hdel1 & _).
    assert (Hc1 : chats (self w1) = Some cs) by (by rewrite Hself1).
    rewrite <-Hdel1 in Hd2.
    destruct (run_spec send this w1 cs vs2 None d2 Hc1 Hd2)
      as (new2 & reg2 & w2 & Hrun2 & _ & Hself2 & _).
    exists w1, w2. rewrite Hself2. cbn. by rewrite Hself1.
Qed.

(** C9. In a run over N targets that completes, each call of [send] is
    followed at once by one sleep of the configured interval, the last call
    included, and nothing else happens but log lines: there are N sleeps,
    and the time slept adds up to N times the interval. *)
Theorem one_sleep_per_target (w : world W) cs vs d' :
  chats (self w) = Some cs →
  deliveries send cs (delivery w) = (vs, None, d') →
  ∃ w' new,
    run send this w = (Ok tt, w') ∧
    events w' = events w ++ new ∧
    non_log new = flat_map (send_then_sleep (timeout (self w))) cs ∧
    sleeps new = replicate (length cs) (timeout (self w)) ∧
    (total_suspension new == inject_Z (Z.of_nat (length cs)) * timeout (self w))%Q ∧
    (inject_Z (Z.of_nat (length cs)) * timeout (self w) <= total_suspension new)%Q.
Proof.
  intros Hc Hd.
  destruct (run_spec send this w cs vs None d' Hc Hd)
    as (new & reg' & w' & Hrun & _ & _ & _ & Hev & _ & Hnl & Hsl & Hlen).
  specialize (Hlen eq_refl). rewrite Hlen in Hnl, Hsl.
  rewrite firstn_all, app_nil_r in Hnl.
  eexists w', _. split; [done|]. split; [exact Hev|].
  assert (Hsl' : sleeps (new ++ [ELogInfo (LogSummary
                   (length (_successful (self w) ++ succ_ids cs vs))
                   (length cs))]) = replicate (length cs) (timeout (self w))).
  { by rewrite sleeps_app, Hsl, app_nil_r. }
  split; [by rewrite non_log_app, Hnl, app_nil_r|].
  split; [done|].
  pose proof (total_suspension_replicate _ _ _ Hsl') as Htot.
  split; [done|]. rewrite Htot. apply Qle_refl.
Qed.

End dispatcher.

(** ** The claims on the example broadcaster *)

Section examples.
Import TargetSet Broadcaster.

(** The example broadcaster is what the constructor builds for
    [chats = [1, 2, 3]] with empty defaults and a bot instance. *)
Lemma init_example :
  __init__ no_ambient_bot []
    (CList [IVal (VInt 1); IVal (VInt 2); IVal (VInt 3)]) (Some 5)
    (kwargs_with_bot 7) example_heap = (Ok example_broadcaster, example_heap).
Proof. by vm_compute. Qed.

Lemma deliveries_example :
  deliveries send_all_but_2 example_targets tt =
    ([VBool true; VBool false; VBool true], None, tt).
Proof. by vm_compute. Qed.

Lemma deliveries_raising_example :
  deliveries send_raising_on_2 example_targets tt =
    ([VBool true], Some (External 1), tt).
Proof. by vm_compute. Qed.

(** C3. The code at a list that mixes a scalar identifier with a record:
    [_setup_chats] raises nothing and leaves [self.chats] unassigned, the
    constructor returns a broadcaster without a target sequence, and only
    a later [run] fails, on reading [self.chats]. *)
Theorem mixed_list_is_let_through :
  _setup_chats (CList [IVal (VInt 1); IDict 0]) (Some 1) example_heap =
    (Ok None, example_heap) ∧
  ∃ b, __init__ no_ambient_bot [] (CList [IVal (VInt 1); IDict 0]) (Some 1)
         (kwargs_with_bot 7) example_heap = (Ok b, example_heap) ∧
       chats b = None ∧
       fst (run send_all_but_2 9
              {| self := b; running := []; events := []; delivery := tt |}) =
         Raise (AttributeError (NoAttribute "chats")).
Proof.
  assert (E : _setup_chats (CList [IVal (VInt 1); IDict 0]) (Some 1)
                example_heap = (Ok None, example_heap))
    by (by apply setup_chats_mixed).
  split; [exact E|].
  destruct (init_ok no_ambient_bot [] _ _ (kwargs_with_bot 7) _ _ _ 7 E)
    as (b & Hb & Hc & _); [reflexivity|].
  exists b. split; [done|]. split; [done|].
  by rewrite run_no_chats.
Qed.

(** C1, as stated, fails: the run of the example broadcaster completes,
    so the broadcaster has left the idle state for good, and the accessor
    raises all the same, although the log holds the identifiers 1 and 3. *)
Lemma finished_broadcaster_raises :
  fst (__init__ no_ambient_bot []
         (CList [IVal (VInt 1); IVal (VInt 2); IVal (VInt 3)]) (Some 5)
         (kwargs_with_bot 7) example_heap) = Ok example_broadcaster ∧
  fst (run send_all_but_2 9 example_world) = Ok tt ∧
  _successful (self (snd (run send_all_but_2 9 example_world))) =
    [VInt 1; VInt 3] ∧
  successful (self (snd (run send_all_but_2 9 example_world))) =
    Raise (RunningError false).
Proof. repeat split; by vm_compute. Qed.

(** The amended C1 on the example: after the completed run the accessor
    raises. *)
Lemma successful_after_example_run :
  run send_all_but_2 9 example_world =
    (Ok tt, snd (run send_all_but_2 9 example_world)) ∧
  successful (self (snd (run send_all_but_2 9 example_world))) =
    Raise (RunningError false).
Proof.
  split; [by vm_compute|].
  destruct (successful_only_while_running send_all_but_2 9)
    as (_ & _ & _ & Hfinished & _).
  apply (Hfinished example_world). by vm_compute.
Defined.

(** P5 of the specification: targets 1, 2, 3 with deliveries returning
    [True], [False], [True]. *)
Lemma outcomes_recorded_example :
  chats (self example_world) = Some example_targets ∧
  _successful (self example_world) = [] ∧
  _failure (self example_world) = [] ∧
  succ_ids example_targets [VBool true; VBool false; VBool true] =
    [VInt 1; VInt 3] ∧
  fail_targets example_targets [VBool true; VBool false; VBool true] =
    [{["chat_id" := VInt 2]}] ∧
  ∃ w', run send_all_but_2 9 example_world = (Ok tt, w') ∧
        length [VBool true; VBool false; VBool true] = length example_targets ∧
        _successful (self w') =
          succ_ids example_targets [VBool true; VBool false; VBool true] ∧
        _failure (self w') =
          fail_targets example_targets [VBool true; VBool false; VBool true].
Proof.
  split; [done|]. split; [done|]. split; [done|].
  split; [by vm_compute|]. split; [by vm_compute|].
  apply (outcomes_recorded send_all_but_2 9 example_world example_targets
           [VBool true; VBool false; VBool true] tt);
    first [done | apply deliveries_example].
Defined.

(** A [send] that raises on the second of the three targets. *)
Lemma delivery_exception_example :
  chats (self example_world) = Some example_targets ∧
  ∃ w', run send_raising_on_2 9 example_world = (Raise (External 1), w') ∧
        _is_running (self w') = true ∧
        running w' = running example_world ++ [9] ∧
        9 ∈ running w'.
Proof.
  split; [done|].
  apply (delivery_exception_propagates send_raising_on_2 9 example_world
           example_targets [VBool true] (External 1) tt);
    first [done | apply deliveries_raising_example].
Defined.

(** Two runs of the example broadcaster in a row. *)
Lemma outcomes_accumulate_example :
  ∃ w1 w2,
    run send_all_but_2 9 example_world = (Ok tt, w1) ∧
    run send_all_but_2 9 w1 = (Ok tt, w2) ∧
    _successful (self w1) =
      _successful (self example_world) ++
      succ_ids example_targets [VBool true; VBool false; VBool true] ∧
    _failure (self w1) =
      _failure (self example_world) ++
      fail_targets example_targets [VBool true; VBool false; VBool true] ∧
    _successful (self w2) =
      _successful (self w1) ++
      succ_ids example_targets [VBool true; VBool false; VBool true] ∧
    _failure (self w2) =
      _failure (self w1) ++
      fail_targets example_targets [VBool true; VBool false; VBool true].
Proof.
  destruct (outcomes_accumulate send_all_but_2 9) as (_ & _ & Htwice).
  apply (Htwice example_world example_targets _ tt _ tt);
    first [done | apply deliveries_example].
Defined.

(** Three targets: three sleeps of 0.02 each. *)
Lemma one_sleep_per_target_example :
  chats (self example_world) = Some example_targets ∧
  ∃ w' new,
    run send_all_but_2 9 example_world = (Ok tt, w') ∧
    events w' = events example_world ++ new ∧
    non_log new = flat_map (send_then_sleep (2 # 100)) example_targets ∧
    sleeps new = replicate 3 (2 # 100)%Q ∧
    (total_suspension new == inject_Z 3 * (2 # 100))%Q ∧
    (inject_Z 3 * (2 # 100) <= total_suspension new)%Q.
Proof.
  split; [done|].
  apply (one_sleep_per_target send_all_but_2 9 example_world example_targets
           [VBool true; VBool false; VBool true] tt);
    first [done | apply deliveries_example].
Defined.

End examples.

(** * Further properties of the normaliser *)

Section more_target_set.
Import TargetSet Broadcaster.

Lemma scalar_targets_run la vs (h : heap) :
  mapM (scalar_target (Some la)) vs h =
    (Ok ((λ v, dict_update {["chat_id" := v]} (h la)) <$> vs), h).
Proof.
  induction vs as [|v vs IH]; [done|].
  rewrite (mapM_cons_ok _ _ _ _ (dict_update {["chat_id" := v]} (h la)) h)
    by reflexivity.
  by rewrite IH.
Qed.

Lemma scalar_target_lookup (d : dict) v k :
  dict_update {["chat_id" := v]} d !! k =
    match d !! k with
    | Some x => Some x
    | None => if decide (k = "chat_id") then Some v else None
    end.
Proof.
  rewrite dict_update_lookup. destruct (d !! k); [done|].
  case_decide as Hk; [subst; apply lookup_singleton_eq|].
  by apply lookup_singleton_ne.
Qed.

(** X1. A list of N scalar identifiers gives N targets, in order.  Each holds
    the shared defaults, and the identifier under [chat_id] unless the
    defaults have a [chat_id] of their own, which then replaces it.
    Nothing in the store is changed. *)
Theorem scalar_list_targets vs la (h : heap) :
  Forall (λ v, is_int_or_str v = true) vs →
  ∃ ts, _setup_chats (CList (IVal <$> vs)) (Some la) h = (Ok (Some ts), h) ∧
        Forall2 (λ v (t : dict), ∀ k,
                   t !! k = match h la !! k with
                            | Some x => Some x
                            | None => if decide (k = "chat_id")
                                      then Some v else None
                            end) vs ts.
Proof.
  intros Hvs. eexists. split.
  - unfold _setup_chats. rewrite all_scalars_vals by done.
    erewrite bind_ok by apply scalar_targets_run. reflexivity.
  - apply Forall2_fmap_r, Forall_Forall2_diag, Forall_forall.
    intros v _ k. apply scalar_target_lookup.
Qed.

Lemma scalar_list_targets_example :
  Forall (λ v, is_int_or_str v = true) [VInt 1; VInt 2; VInt 3] ∧
  ∃ ts, _setup_chats (CList (IVal <$> [VInt 1; VInt 2; VInt 3])) (Some 1)
          example_heap = (Ok (Some ts), example_heap) ∧
        Forall2 (λ v (t : dict), ∀ k,
                   t !! k = match example_heap 1 !! k with
                            | Some x => Some x
                            | None => if decide (k = "chat_id")
                                      then Some v else None
                            end) [VInt 1; VInt 2; VInt 3] ts.
Proof.
  assert (H : Forall (λ v, is_int_or_str v = true) [VInt 1; VInt 2; VInt 3])
    by (by repeat constructor).
  split; [exact H|].
  exact (scalar_list_targets [VInt 1; VInt 2; VInt 3] 1 example_heap H).
Defined.

(** A scalar identifier is handled as the list holding it alone, whatever
    the defaults are. *)
Theorem scalar_is_singleton_list v args (h : heap) :
  is_int_or_str v = true →
  _setup_chats (CVal v) args h = _setup_chats (CList [IVal v]) args h.
Proof.
  intros Hv. unfold _setup_chats, all_scalars. cbn [mapM]. rewrite Hv.
  destruct args as [la|]; reflexivity.
Qed.

Lemma scalar_is_singleton_list_example :
  is_int_or_str (VStr "@channel") = true ∧
  _setup_chats (CVal (VStr "@channel")) (Some 1) example_heap =
    _setup_chats (CList [IVal (VStr "@channel")]) (Some 1) example_heap.
Proof.
  split; [reflexivity|].
  by apply (scalar_is_singleton_list (VStr "@channel") (Some 1) example_heap).
Defined.

(** X2. A falsy identifier (0, the empty string, [False]) is accepted when it
    is given as a scalar, and rejected when it is the [chat_id] of a
    record. *)
Theorem falsy_identifier_scalar_or_record v l la (h : heap) :
  is_int_or_str v = true → truthy v = false →
  h l !! "chat_id" = Some v →
  (∃ t, _setup_chats (CList [IVal v]) (Some la) h = (Ok (Some [t]), h) ∧
        (h la !! "chat_id" = None → t !! "chat_id" = Some v)) ∧
  _setup_chats (CList [IDict l]) (Some la) h =
    (Raise (ValueError NotAllHaveChatId), h).
Proof.
  intros Hv Hf Hl. split.
  - eexists. split.
    + unfold _setup_chats, all_scalars. cbn [mapM]. rewrite Hv. reflexivity.
    + intros Hla. rewrite scalar_target_lookup, Hla. by rewrite decide_True.
  - change [IDict l] with (IDict <$> [l]).
    rewrite setup_chats_records by done.
    apply setup_records_bad_id. constructor.
    apply bad_identifier_falsy. unfold dict_get. by rewrite Hl.
Qed.

Lemma falsy_identifier_example :
  is_int_or_str (VInt 0) = true ∧ truthy (VInt 0) = false ∧
  example_heap 3 !! "chat_id" = Some (VInt 0) ∧
  (∃ t, _setup_chats (CList [IVal (VInt 0)]) (Some 1) example_heap =
          (Ok (Some [t]), example_heap) ∧
        (example_heap 1 !! "chat_id" = None → t !! "chat_id" = Some (VInt 0))) ∧
  _setup_chats (CList [IDict 3]) (Some 1) example_heap =
    (Raise (ValueError NotAllHaveChatId), example_heap).
Proof.
  split; [reflexivity|]. split; [reflexivity|]. split; [by vm_compute|].
  apply (falsy_identifier_scalar_or_record (VInt 0) 3 1 example_heap);
    by vm_compute.
Defined.

Lemma chek_identical_keys_first (d0 : dict) rest :
  _chek_identical_keys (d0 :: rest) = true ↔ Forall (λ d, dom d = dom d0) rest.
Proof.
  cbn [_chek_identical_keys]. induction rest as [|d rest IH]; [done|].
  cbn [forallb]. rewrite andb_true_iff, IH, bool_decide_eq_true.
  rewrite sorted_keys_eq_dom. split.
  - intros [??]. by constructor.
  - intros [??]%Forall_cons_1. done.
Qed.

Lemma chek_identical_keys_pairwise (ds : list dict) :
  _chek_identical_keys ds = true ↔ ∀ d e, d ∈ ds → e ∈ ds → dom d = dom e.
Proof.
  destruct ds as [|d0 rest].
  { split; [|done]. intros _ d e Hd. by apply not_elem_of_nil in Hd. }
  rewrite chek_identical_keys_first, list.Forall_forall. split.
  - intros H d e Hd He.
    assert (∀ x, x ∈ d0 :: rest → dom x = dom d0) as H0.
    { intros x Hx. apply elem_of_cons in Hx as [Hx|Hx]; [by subst | by apply H]. }
    by rewrite (H0 d), (H0 e).
  - intros H d Hd. apply H; [by right | by left].
Qed.

(** X3. Although [_chek_identical_keys] compares every dictionary with the
    first one only, it answers [True] exactly when any two dictionaries of
    the list have the same set of keys; so its answer does not depend on
    the order of the list. *)
Theorem identical_keys_any_two (ds : list dict) :
  (_chek_identical_keys ds = true ↔
   ∀ d e, d ∈ ds → e ∈ ds → dom d = dom e) ∧
  (∀ ds', ds ≡ₚ ds' → _chek_identical_keys ds' = _chek_identical_keys ds).
Proof.
  split; [apply chek_identical_keys_pairwise|].
  intros ds' Hperm.
  assert (_chek_identical_keys ds' = true ↔ _chek_identical_keys ds = true) as H.
  { rewrite !chek_identical_keys_pairwise.
    split; intros H d e Hd He; apply H.
    - by rewrite <-Hperm. - by rewrite <-Hperm.
    - by rewrite Hperm. - by rewrite Hperm. }
  destruct (_chek_identical_keys ds') eqn:E1,
           (_chek_identical_keys ds) eqn:E2; [done| | |done].
  - symmetry. by apply H.
  - by apply H.
Qed.

Lemma identical_keys_any_two_example :
  [example_heap 0; example_heap 2; example_heap 4] ≡ₚ
    [example_heap 2; example_heap 4; example_heap 0] ∧
  _chek_identical_keys [example_heap 2; example_heap 4; example_heap 0] =
    _chek_identical_keys [example_heap 0; example_heap 2; example_heap 4].
Proof.
  assert ([example_heap 0; example_heap 2; example_heap 4] ≡ₚ
            [example_heap 2; example_heap 4; example_heap 0]) as Hperm.
  { change [example_heap 2; example_heap 4; example_heap 0]
      with ([example_heap 2; example_heap 4] ++ [example_heap 0]).
    apply Permutation_cons_append. }
  split; [exact Hperm|].
  by apply (identical_keys_any_two
              [example_heap 0; example_heap 2; example_heap 4]).
Defined.

Lemma popped_bad (h : heap) ls l :
  l ∈ ls → bad_identifier (popped h ls l).
Proof.
  intros Hl. left. unfold popped. rewrite decide_True by done.
  apply lookup_delete_eq.
Qed.

Lemma bad_identifier_ext (d e : dict) : d = e → bad_identifier d → bad_identifier e.
Proof. by intros ->. Qed.

(** X4. Once a target sequence has been built from a non-empty list of
    records, the same records cannot be used again: their identifiers are
    gone, and a second construction from them fails with the
    missing-identifier [ValueError], whatever the defaults. *)
Theorem records_cannot_be_reused ls la args' (h : heap) ts h' :
  ls ≠ [] →
  _setup_chats (CList (IDict <$> ls)) (Some la) h = (Ok (Some ts), h') →
  _setup_chats (CList (IDict <$> ls)) args' h' =
    (Raise (ValueError NotAllHaveChatId), h').
Proof.
  intros Hne Hrun. rewrite setup_chats_records in Hrun by done.
  destruct (setup_records_cases h ls (Some la)) as [E|[E|[Hgood Hkeys]]];
    [congruence..|].
  rewrite setup_records_valid in Hrun by done.
  destruct (comprehension_spec h la ls [] h) as (ts0 & h2 & E & Hpop & _);
    [done..|].
  rewrite E in Hrun. injection Hrun as _ <-.
  rewrite setup_chats_records by done. apply setup_records_bad_id.
  destruct ls as [|l ls]; [done|]. constructor.
  eapply bad_identifier_ext; [symmetry; apply Hpop|].
  apply popped_bad. by left.
Qed.

Lemma records_cannot_be_reused_example :
  [0; 4] ≠ [] ∧
  ∃ ts h',
    _setup_chats (CList (IDict <$> [0; 4])) (Some 1) example_heap =
      (Ok (Some ts), h') ∧
    _setup_chats (CList (IDict <$> [0; 4])) (Some 1) h' =
      (Raise (ValueError NotAllHaveChatId), h').
Proof.
  split; [done|].
  eexists _, (snd (_setup_chats (CList (IDict <$> [0; 4])) (Some 1) example_heap)).
  assert (_setup_chats (CList (IDict <$> [0; 4])) (Some 1) example_heap =
            (Ok (Some [{["chat_id" := VInt 5; "opt" := VStr "b"]};
                       {["chat_id" := VInt 6; "opt" := VStr "b"]}]),
             snd (_setup_chats (CList (IDict <$> [0; 4])) (Some 1) example_heap)))
    as Hbuilt by (by vm_compute).
  split; [exact Hbuilt|].
  by eapply (records_cannot_be_reused [0; 4] 1 (Some 1) example_heap).
Defined.

(** X5. With the defaults left at [None], a list of valid records does not
    only fail with a [TypeError]: the identifier of the first record has
    been popped by then (the other dictionaries are untouched), so that a
    second attempt on the same records fails validation, whatever the
    defaults. *)
Theorem missing_defaults_spoil_first_record l ls (h : heap) :
  Forall (λ x, ¬ bad_identifier (h x)) (l :: ls) →
  ¬ keys_differ h (l :: ls) →
  ∃ h', _setup_chats (CList (IDict <$> l :: ls)) None h = (Raise TypeError, h') ∧
        h' l = delete "chat_id" (h l) ∧
        (∀ x, x ≠ l → h' x = h x) ∧
        ∀ args', _setup_chats (CList (IDict <$> l :: ls)) args' h' =
                   (Raise (ValueError NotAllHaveChatId), h').
Proof.
  intros Hgood Hkeys. exists (<[l := delete "chat_id" (h l)]> h).
  rewrite setup_chats_records, setup_records_valid by done.
  apply Forall_cons_1 in Hgood as [Hl _].
  rewrite comprehension_None by done.
  split; [done|]. split; [apply fn_lookup_insert|].
  split; [intros x Hx; by apply fn_lookup_insert_ne|].
  intros args'. rewrite setup_chats_records by done.
  apply setup_records_bad_id. constructor. left.
  rewrite fn_lookup_insert. apply lookup_delete_eq.
Qed.

Lemma missing_defaults_example :
  Forall (λ x, ¬ bad_identifier (example_heap x)) [0; 4] ∧
  ¬ keys_differ example_heap [0; 4] ∧
  ∃ h', _setup_chats (CList (IDict <$> [0; 4])) None example_heap =
          (Raise TypeError, h') ∧
        h' 0 = delete "chat_id" (example_heap 0) ∧
        (∀ x, x ≠ 0 → h' x = example_heap x) ∧
        ∀ args', _setup_chats (CList (IDict <$> [0; 4])) args' h' =
                   (Raise (ValueError NotAllHaveChatId), h').
Proof.
  assert (Hgood : Forall (λ l, ¬ bad_identifier (example_heap l)) [0; 4]).
  { repeat constructor; intros Hb%bad_identifier_falsy; by vm_compute in Hb. }
  assert (Hsame : ¬ keys_differ example_heap [0; 4]).
  { intros Hd%chek_identical_keys_false. by vm_compute in Hd. }
  split; [exact Hgood|]. split; [exact Hsame|].
  exact (missing_defaults_spoil_first_record 0 [4] example_heap Hgood Hsame).
Defined.

Lemma firsts_length seen ls :
  length (firsts seen ls) =
    size (list_to_set ls ∖ list_to_set seen : gset loc).
Proof.
  revert seen. induction ls as [|l ls IH]; intros seen; cbn [firsts].
  { rewrite list_to_set_nil. apply eq_sym, size_empty_iff.
    intros x. rewrite elem_of_difference, elem_of_empty. tauto. }
  rewrite list_to_set_cons. case_decide as Hl.
  - rewrite IH. f_equal. apply set_eq. intros x.
    rewrite !elem_of_difference, elem_of_union, elem_of_singleton,
      !elem_of_list_to_set.
    split; [tauto|]. intros [[->|?] ?]; tauto.
  - cbn [length]. rewrite IH, list_to_set_cons.
    replace (({[l]} ∪ list_to_set ls) ∖ list_to_set seen : gset loc)
      with ({[l]} ∪ (list_to_set ls ∖ ({[l]} ∪ list_to_set seen)) : gset loc).
    + rewrite (size_union (C:=gset nat) {[l]}
                 (list_to_set ls ∖ ({[l]} ∪ list_to_set seen))).
      * by rewrite size_singleton.
      * intros x Hx1 Hx2. apply elem_of_difference in Hx2 as [_ Hx2].
        apply Hx2, elem_of_union. by left.
    + apply set_eq. intros x.
      rewrite !elem_of_union, !elem_of_difference, !elem_of_union,
        !elem_of_singleton, !elem_of_list_to_set.
      destruct (decide (x = l)) as [->|]; tauto.
Qed.

(** X6. The targets built from a list of records are one per record object,
    not one per list element: a dictionary that occurs several times in the
    list gives a single target.  For pairwise distinct objects there are as
    many targets as elements. *)
Theorem one_target_per_record_object ls la (h : heap) ts h' :
  _setup_chats (CList (IDict <$> ls)) (Some la) h = (Ok (Some ts), h') →
  length ts = size (list_to_set ls : gset loc) ∧
  (NoDup ls → length ts = length ls).
Proof.
  intros Hrun.
  assert (length ts = size (list_to_set ls : gset loc)) as Hlen.
  { destruct (decide (ls = [])) as [->|Hne].
    { cbn in Hrun. by injection Hrun as <- _. }
    rewrite setup_chats_records in Hrun by done.
    destruct (setup_records_cases h ls (Some la)) as [E|[E|[Hgood Hkeys]]];
      [congruence..|].
    rewrite setup_records_valid in Hrun by done.
    destruct (comprehension_spec h la ls [] h) as (ts0 & h2 & E & _ & Hts);
      [done..|].
    rewrite E in Hrun. injection Hrun as <- _.
    apply Forall2_length in Hts. rewrite <-Hts, firsts_length.
    f_equal. apply set_eq. intros x.
    rewrite elem_of_difference, list_to_set_nil, elem_of_empty. tauto. }
  split; [done|]. intros Hnd. rewrite Hlen. by apply size_list_to_set.
Qed.

Lemma one_target_per_record_object_example :
  ∃ ts h',
    _setup_chats (CList (IDict <$> [0; 4; 0])) (Some 1) example_heap =
      (Ok (Some ts), h') ∧
    length ts = 2 ∧
    length ts = size (list_to_set [0; 4; 0] : gset loc) ∧
    (NoDup [0; 4; 0] → length ts = length [0; 4; 0]).
Proof.
  eexists _, (snd (_setup_chats (CList (IDict <$> [0; 4; 0])) (Some 1)
                     example_heap)).
  assert (_setup_chats (CList (IDict <$> [0; 4; 0])) (Some 1) example_heap =
            (Ok (Some [{["chat_id" := VInt 5; "opt" := VStr "b"]};
                       {["chat_id" := VInt 6; "opt" := VStr "b"]}]),
             snd (_setup_chats (CList (IDict <$> [0; 4; 0])) (Some 1)
                    example_heap)))
    as Hbuilt by (by vm_compute).
  split; [exact Hbuilt|]. split; [reflexivity|].
  by eapply (one_target_per_record_object [0; 4; 0] 1 example_heap).
Defined.



End more_target_set.

(** * Further properties of the constructor *)

Section more_construction.
Import TargetSet Broadcaster.

Lemma no_token_falsy token : no_token token ↔ token_truthy token = false.
Proof.
  unfold no_token, token_truthy. split.
  - by intros [->| ->].
  - destruct token as [t|]; [|auto]. intros H. right. f_equal.
    destruct (String.eqb_spec t ""); [done | discriminate].
Qed.

(** X8. Which bot [_setup_bot] settles on.  A bot instance together with a
    non-empty token is refused.  A bot instance alone is taken as it is, and
    so it is when the token is the empty string.  A non-empty token alone
    is handed to the [Bot] constructor.  With neither (an empty token counts
    as none), the ambient bot is taken, and its absence is an error. *)
Theorem setup_bot_cases lib bot token :
  (∀ b t, bot = Some b → token = Some t → t ≠ "" →
     _setup_bot lib bot token = Raise (AttributeError BothBotAndToken)) ∧
  (∀ b, bot = Some b → no_token token → _setup_bot lib bot token = Ok b) ∧
  (∀ t, bot = None → token = Some t → t ≠ "" →
     _setup_bot lib bot token = Bot_new lib t) ∧
  (bot = None → no_token token →
     _setup_bot lib bot token =
       match Bot_get_current lib with
       | Some b => Ok b
       | None => Raise (AttributeError NeedBotOrToken)
       end).
Proof.
  assert (∀ t, t ≠ "" → token_truthy (Some t) = true) as Htr.
  { intros t Ht. cbn. by destruct (String.eqb_spec t ""). }
  split; [|split; [|split]].
  - intros b t -> -> Ht. unfold _setup_bot. by rewrite (Htr t Ht).
  - by intros b -> [-> | ->].
  - intros t -> -> Ht. unfold _setup_bot. by rewrite (Htr t Ht).
  - intros -> [-> | ->]; unfold _setup_bot; cbn;
      by destruct (Bot_get_current lib).
Qed.

Lemma setup_bot_cases_example :
  (Some 7 = Some 7 ∧ no_token (Some "") ∧
   _setup_bot no_ambient_bot (Some 7) (Some "") = Ok 7) ∧
  (@None Bot = None ∧ no_token None ∧
   _setup_bot no_ambient_bot None None =
     match Bot_get_current no_ambient_bot with
     | Some b => Ok b
     | None => Raise (AttributeError NeedBotOrToken)
     end).
Proof.
  split.
  - split; [done|]. split; [by right|].
    destruct (setup_bot_cases no_ambient_bot (Some 7) (Some ""))
      as (_ & H & _). apply H; [done | by right].
  - split; [done|]. split; [by left|].
    destruct (setup_bot_cases no_ambient_bot None None) as (_ & _ & _ & H).
    apply H; [done | by left].
Defined.

(** X9. The order of failures in [__init__]: an error of the target
    specification comes first, whatever the bot arguments are; an error of
    the bot arguments comes after the targets were built, so that by then
    the identifiers of the records have been popped although no
    broadcaster comes into being. *)
Theorem init_failure_order lib reg input args kw (h : heap) :
  (∀ e h', _setup_chats input args h = (Raise e, h') →
     __init__ lib reg input args kw h = (Raise e, h')) ∧
  (∀ cs h' e, _setup_chats input args h = (Ok cs, h') →
     _setup_bot lib (kw_bot kw) (kw_bot_token kw) = Raise e →
     __init__ lib reg input args kw h = (Raise e, h') ∧
     (is_Some cs → ∀ l, l ∈ records_of input → h' l = delete "chat_id" (h l))).
Proof.
  split.
  - intros e h' H. by apply init_raise.
  - intros cs h' e H Hbot. split.
    + unfold __init__. erewrite bind_ok by exact H.
      apply bind_raise. unfold lift. by rewrite Hbot.
    + intros [ts ->] l Hl.
      (* the records of a built sequence have all been popped *)
      destruct input as [v|l0|xs]; [by apply not_elem_of_nil in Hl..|].
      cbn [_setup_chats] in H.
      destruct (all_scalars xs) as [vs|] eqn:Es.
      { erewrite records_of_scalars in Hl by done.
        by apply not_elem_of_nil in Hl. }
      destruct (all_dicts xs) as [ls|] eqn:Ed; [|discriminate].
      rewrite (records_of_dicts _ _ Ed) in Hl.
      destruct (setup_records_cases h ls args) as [E|[E|[Hgood Hkeys]]];
        [congruence..|].
      rewrite setup_records_valid in H by done.
      destruct args as [la|].
      * destruct (comprehension_spec h la ls [] h) as (ts0 & h2 & E & Hpop & _);
          [done..|].
        rewrite E in H. injection H as _ <-. rewrite Hpop.
        unfold popped. rewrite decide_True; [done|].
        apply elem_of_app. by left.
      * destruct ls as [|l1 ls]; [by apply not_elem_of_nil in Hl|].
        apply Forall_cons_1 in Hgood as [Hl1 _].
        rewrite comprehension_None in H by done. discriminate.
Qed.

(** A bot instance together with a token: the constructor fails, and the
    record at address 0 has lost its identifier all the same. *)
Lemma init_failure_order_example :
  ∃ cs h',
    _setup_chats (CList [IDict 0]) (Some 1) example_heap = (Ok cs, h') ∧
    _setup_bot no_ambient_bot (Some 7) (Some "123:abc") =
      Raise (AttributeError BothBotAndToken) ∧
    __init__ no_ambient_bot [] (CList [IDict 0]) (Some 1)
      {| kw_disable_notification := None;
         kw_disable_web_page_preview := None;
         kw_reply_to_message_id := None;
         kw_allow_sending_without_reply := None;
         kw_reply_markup := VNone;
         kw_bot := Some 7;
         kw_bot_token := Some "123:abc";
         kw_timeout := 2 # 100 |} example_heap =
      (Raise (AttributeError BothBotAndToken), h') ∧
    (is_Some cs → ∀ l, l ∈ records_of (CList [IDict 0]) →
       h' l = delete "chat_id" (example_heap l)).
Proof.
  eexists (Some [{["chat_id" := VInt 5; "opt" := VStr "b"]}]),
          (snd (_setup_chats (CList [IDict 0]) (Some 1) example_heap)).
  assert (_setup_chats (CList [IDict 0]) (Some 1) example_heap =
            (Ok (Some [{["chat_id" := VInt 5; "opt" := VStr "b"]}]),
             snd (_setup_chats (CList [IDict 0]) (Some 1) example_heap)))
    as Hbuilt by (by vm_compute).
  split; [exact Hbuilt|]. split; [reflexivity|].
  destruct (init_failure_order no_ambient_bot [] (CList [IDict 0]) (Some 1)
              {| kw_disable_notification := None;
                 kw_disable_web_page_preview := None;
                 kw_reply_to_message_id := None;
                 kw_allow_sending_without_reply := None;
                 kw_reply_markup := VNone;
                 kw_bot := Some 7;
                 kw_bot_token := Some "123:abc";
                 kw_timeout := 2 # 100 |} example_heap) as [_ H].
  by apply (H _ _ (AttributeError BothBotAndToken) Hbuilt).
Defined.

End more_construction.

(** * Further properties of the broadcaster *)

Section more_status.
Import TargetSet Broadcaster.

(** X10. [__str__] reads the guarded accessor only while the broadcaster is
    running, so it never raises [RunningError]: it fails only when the
    broadcaster is running without a target sequence, on [self.chats].
    The line it renders shows a progress (successes so far out of the
    number of targets) exactly while the broadcaster is running. *)
Theorem str_reports_progress_while_running b :
  ((∃ e, __str__ b = Raise e) ↔ (_is_running b = true ∧ chats b = None)) ∧
  (∀ e, __str__ b = Raise e → e = AttributeError (NoAttribute "chats")) ∧
  (∀ line, __str__ b = Ok line →
     st_id line = _id b ∧ st_is_running line = _is_running b ∧
     st_progress line =
       if _is_running b
       then Some (length (_successful b), length (default [] (chats b)))
       else None).
Proof.
  unfold __str__, successful, get_chats.
  destruct (_is_running b) eqn:Hr, (chats b) as [cs|] eqn:Hc; cbn.
  - split; [split; [intros [e [=]] | intros [_ [=]]]|].
    split; [intros e [=]|]. by intros line [= <-].
  - split; [split; [done | by eexists]|].
    split; [by intros e [= <-]|]. intros line [=].
  - split; [split; [intros [e [=]] | intros [[=] _]]|].
    split; [intros e [=]|]. by intros line [= <-].
  - split; [split; [intros [e [=]] | intros [[=] _]]|].
    split; [intros e [=]|]. by intros line [= <-].
Qed.

Lemma str_example :
  __str__ example_broadcaster =
    Ok {| st_id := 0; st_is_running := false; st_progress := None |} ∧
  st_progress {| st_id := 0; st_is_running := false; st_progress := None |} =
    if _is_running example_broadcaster
    then Some (length (_successful example_broadcaster),
               length (default [] (chats example_broadcaster)))
    else None.
Proof.
  split; [reflexivity|].
  destruct (str_reports_progress_while_running example_broadcaster)
    as (_ & _ & H).
  by apply (H {| st_id := 0; st_is_running := false; st_progress := None |}).
Defined.

End more_status.

Section more_runs.
Import TargetSet Broadcaster.
Context {W : Type} (send : pyval → dict → M W pyval) (this : loc).

Lemma deliveries_length ts : ∀ d vs e d',
  deliveries send ts d = (vs, e, d') →
  (length vs ≤ length ts)%nat ∧
  (e = None → length vs = length ts) ∧
  (is_Some e → ∃ t, ts !! length vs = Some t).
Proof.
  induction ts as [|t ts IH]; intros d vs e d' Hd; cbn [deliveries] in Hd.
  { injection Hd as <- <- <-. split; [done|]. split; [done|]. by intros [? [=]]. }
  destruct (send (dict_get t "chat_id") t d) as [[v|x] d1].
  - destruct (deliveries send ts d1) as [[vs1 e1] d2] eqn:Hd1.
    injection Hd as <- <- <-. destruct (IH _ _ _ _ Hd1) as (H1 & H2 & H3).
    cbn. split; [lia|]. split; [intros He; f_equal; auto|]. done.
  - injection Hd as <- <- <-. cbn. split; [lia|]. split; [done|]. eauto.
Qed.

Lemma outcomes_length ts : ∀ vs,
  (length vs ≤ length ts)%nat →
  length (succ_ids ts vs) + length (fail_targets ts vs) = length vs.
Proof.
  induction ts as [|t ts IH]; intros [|v vs] Hlen; try done.
  { cbn in Hlen. lia. }
  rewrite succ_ids_cons, fail_targets_cons. cbn in Hlen.
  specialize (IH vs ltac:(lia)). destruct (truthy v); cbn; lia.
Qed.

Lemma list_remove_perm x l l' :
  list_remove x l = Some l' → l ≡ₚ x :: l'.
Proof.
  revert l'. induction l as [|y l IH]; intros l'; cbn; [done|].
  case_decide as Hxy.
  - intros [= <-]. by subst.
  - destruct (list_remove x l) as [l0|]; [|done]. intros [= <-].
    rewrite (IH l0 eq_refl). apply Permutation_swap.
Qed.

(** Every way a run can end, in one statement. *)
Lemma run_cases (w : world W) :
  (chats (self w) = None ∧
   run send this w =
     (Raise (AttributeError (NoAttribute "chats")),
      {| self := set_is_running true (self w);
         running := running w ++ [this];
         events := events w; delivery := delivery w |})) ∨
  (∃ cs vs e d' new reg' w',
     chats (self w) = Some cs ∧
     deliveries send cs (delivery w) = (vs, e, d') ∧
     run send this w = (match e with None => Ok tt | Some x => Raise x end, w') ∧
     list_remove this (running w ++ [this]) = Some reg' ∧
     self w' = set_is_running (match e with None => false | Some _ => true end)
                 (with_outcomes (succ_ids cs vs) (fail_targets cs vs) (self w)) ∧
     running w' = match e with None => reg' | Some _ => running w ++ [this] end ∧
     events w' = events w ++ new ++
                 match e with
                 | None => [ELogInfo (LogSummary
                              (length (_successful (self w) ++ succ_ids cs vs))
                              (length cs))]
                 | Some _ => []
                 end ∧
     delivery w' = d').
Proof.
  destruct (chats (self w)) as [cs|] eqn:Hc.
  - right. destruct (deliveries send cs (delivery w)) as [[vs e] d'] eqn:Hd.
    destruct (run_spec send this w cs vs e d' Hc Hd)
      as (new & reg' & w' & H1 & H2 & H3 & H4 & H5 & H6 & _).
    by exists cs, vs, e, d', new, reg', w'.
  - left. split; [done|]. by apply run_no_chats.
Qed.


(** X12. A run raises nothing of its own as long as the broadcaster has a
    target sequence: what leaves [run] is either an exception of [send],
    or the [AttributeError] on a [chats] attribute that was never assigned.
    In particular the status line never raises inside the loop, and the
    removal from [running] never fails. *)
Theorem run_raises_only (w : world W) e w' :
  run send this w = (Raise e, w') →
  (chats (self w) = None ∧ e = AttributeError (NoAttribute "chats")) ∨
  (∃ cs vs d', chats (self w) = Some cs ∧
               deliveries send cs (delivery w) = (vs, Some e, d')).
Proof.
  intros Hrun.
  destruct (run_cases w)
    as [[Hc E]|(cs & vs & e' & d' & new & reg' & w2 & Hc & Hd & E & _)];
    rewrite Hrun in E.
  - injection E as -> _. by left.
  - right. destruct e' as [x|]; [|discriminate].
    injection E as -> _. eauto.
Qed.

(** X13. Each delivery that returns is recorded in exactly one of the two
    logs: after a run, the logs have grown, together, by the number of
    deliveries that returned, which is the number of targets when the run
    completes. *)
Theorem returned_deliveries_logged_once (w : world W) cs vs e d' :
  chats (self w) = Some cs →
  deliveries send cs (delivery w) = (vs, e, d') →
  ∃ r w', run send this w = (r, w') ∧
    length (_successful (self w')) + length (_failure (self w')) =
      length (_successful (self w)) + length (_failure (self w)) + length vs ∧
    (length vs ≤ length cs)%nat ∧
    (e = None → length vs = length cs).
Proof.
  intros Hc Hd.
  destruct (run_spec send this w cs vs e d' Hc Hd)
    as (new & reg' & w' & Hrun & _ & Hself & _).
  destruct (deliveries_length _ _ _ _ _ Hd) as (Hle & Hall & _).
  eexists _, w'. split; [exact Hrun|]. split; [|done].
  rewrite Hself. cbn. rewrite !length_app.
  pose proof (outcomes_length cs vs Hle). lia.
Qed.

(** X14. A completed run takes the broadcaster out of [running] once, for the
    once it put it in: the entries of [running] are afterwards those from
    before the run, and [running] is exactly what it was when the
    broadcaster was not in it. *)
Theorem registry_after_completed_run (w w' : world W) :
  run send this w = (Ok tt, w') →
  running w' ≡ₚ running w ∧
  (this ∉ running w → running w' = running w).
Proof.
  intros Hrun.
  destruct (run_cases w)
    as [[_ E]|(cs & vs & e & d' & new & reg' & w2 & _ & _ & E & Hrem & _ & Hreg & _)];
    rewrite Hrun in E; [discriminate|].
  destruct e; [discriminate|]. injection E as ->. rewrite Hreg. split.
  - apply list_remove_perm in Hrem.
    rewrite <-Permutation_cons_append in Hrem.
    by apply Permutation_cons_inv in Hrem.
  - intros Hnot.
    destruct (list_remove_appended this (running w)) as (l' & Hrem' & _ & Hl').
    rewrite Hrem in Hrem'. injection Hrem' as ->. auto.
Qed.

(** X15. A broadcaster whose run was cut short by an exception of [send]
    stays in [running] for good: a later run that completes removes only
    the entry it added itself, so the broadcaster is then registered as
    active while its running flag is off. *)
Theorem stale_registration_survives (w : world W) cs vs1 x d1 vs2 d2 :
  chats (self w) = Some cs →
  deliveries send cs (delivery w) = (vs1, Some x, d1) →
  deliveries send cs d1 = (vs2, None, d2) →
  ∃ w1 w2,
    run send this w = (Raise x, w1) ∧
    run send this w1 = (Ok tt, w2) ∧
    _is_running (self w2) = false ∧
    this ∈ running w2.
Proof.
  intros Hc Hd1 Hd2.
  destruct (run_spec send this w cs vs1 (Some x) d1 Hc Hd1)
    as (new1 & reg1 & w1 & Hrun1 & _ & Hself1 & Hreg1 & _ & Hdel1 & _).
  assert (Hc1 : chats (self w1) = Some cs) by (by rewrite Hself1).
  rewrite <-Hdel1 in Hd2.
  destruct (run_spec send this w1 cs vs2 None d2 Hc1 Hd2)
    as (new2 & reg2 & w2 & Hrun2 & Hrem & Hself2 & Hreg2 & _).
  exists w1, w2. split; [done|]. split; [done|].
  split; [by rewrite Hself2|].
  rewrite Hreg2. apply list_remove_perm in Hrem. rewrite Hreg1 in Hrem.
  rewrite <-Permutation_cons_append in Hrem.
  apply Permutation_cons_inv in Hrem. rewrite <-Hrem.
  apply elem_of_app. right. by left.
Qed.

(** X16. A run over an empty target sequence completes at once: [send] is not
    called, nothing is slept, the logs stay as they are, and the only
    trace is the summary line. *)
Theorem run_without_targets (w : world W) :
  chats (self w) = Some [] →
  ∃ w', run send this w = (Ok tt, w') ∧
        _is_running (self w') = false ∧
        _successful (self w') = _successful (self w) ∧
        _failure (self w') = _failure (self w) ∧
        delivery w' = delivery w ∧
        events w' = events w ++
          [ELogInfo (LogSummary (length (_successful (self w))) 0)].
Proof.
  intros Hc.
  destruct (list_remove_appended this (running w)) as (reg' & Hrem & _).
  eexists. split.
  - unfold run.
    erewrite bind_ok by reflexivity.
    erewrite bind_ok by reflexivity.
    erewrite bind_ok by reflexivity.
    erewrite bind_ok
      by (unfold lift; erewrite get_chats_Some by exact Hc; reflexivity).
    erewrite bind_ok by reflexivity.
    erewrite bind_ok by reflexivity.
    erewrite bind_ok.
    2:{ unfold running_remove, get_state, modify, mbind, M_bind. cbn.
        rewrite Hrem. reflexivity. }
    erewrite bind_ok by reflexivity.
    erewrite bind_ok
      by (unfold lift; erewrite get_chats_Some by exact Hc; reflexivity).
    reflexivity.
  - done.
Qed.

(** X17. The summary line that ends a completed run gives the length of the
    whole log of successes, earlier runs included, over the number of
    targets of the broadcaster: on a second run the first figure can
    exceed the second. *)
Theorem summary_counts_all_runs (w : world W) cs vs d' :
  chats (self w) = Some cs →
  deliveries send cs (delivery w) = (vs, None, d') →
  ∃ w', run send this w = (Ok tt, w') ∧
        list.last (events w') =
          Some (ELogInfo (LogSummary (length (_successful (self w')))
                                     (length cs))) ∧
        length (_successful (self w')) =
          length (_successful (self w)) + length (succ_ids cs vs).
Proof.
  intros Hc Hd.
  destruct (run_spec send this w cs vs None d' Hc Hd)
    as (new & reg' & w' & Hrun & _ & Hself & _ & Hev & _).
  exists w'. split; [done|]. rewrite Hev, Hself. cbn. split.
  - by rewrite !app_assoc, list.last_snoc.
  - by rewrite length_app.
Qed.

(** X18. When [send] raises, the run stops there: the targets before the
    failing one were each sent and slept after, the failing one was sent
    without a sleep, the targets after it are never sent; and the failing
    target is recorded in neither log, which hold the outcomes of the
    deliveries that returned. *)
Theorem abort_skips_remaining_targets (w : world W) cs vs x d' :
  chats (self w) = Some cs →
  deliveries send cs (delivery w) = (vs, Some x, d') →
  ∃ w' new t,
    run send this w = (Raise x, w') ∧
    cs !! length vs = Some t ∧
    events w' = events w ++ new ∧
    non_log new =
      flat_map (send_then_sleep (timeout (self w))) (take (length vs) cs) ++
      [ESend (dict_get t "chat_id") t] ∧
    _successful (self w') = _successful (self w) ++ succ_ids cs vs ∧
    _failure (self w') = _failure (self w) ++ fail_targets cs vs ∧
    length (succ_ids cs vs) + length (fail_targets cs vs) = length vs.
Proof.
  intros Hc Hd.
  destruct (run_spec send this w cs vs (Some x) d' Hc Hd)
    as (new & reg' & w' & Hrun & _ & Hself & _ & Hev & _ & Hnl & _).
  destruct (deliveries_length _ _ _ _ _ Hd) as (Hle & _ & Ht).
  destruct Ht as [t Ht]; [by eexists|].
  exists w', new, t. rewrite Ht in Hnl. rewrite app_nil_r in Hev.
  rewrite Hself. cbn. repeat split; try done. by apply outcomes_length.
Qed.

Lemma deliveries_all_truthy ts :
  (∀ chat_id chat_args d, ∃ v d1,
     send chat_id chat_args d = (Ok v, d1) ∧ truthy v = true) →
  ∀ d, ∃ vs d', deliveries send ts d = (vs, None, d') ∧
                succ_ids ts vs = (λ t, dict_get t "chat_id") <$> ts ∧
                fail_targets ts vs = [].
Proof.
  intros Hsend. induction ts as [|t ts IH]; intros d.
  { by exists [], d. }
  destruct (Hsend (dict_get t "chat_id") t d) as (v & d1 & Hs & Hv).
  destruct (IH d1) as (vs & d' & Hd & Hsucc & Hfail).
  exists (v :: vs), d'. cbn [deliveries]. rewrite Hs, Hd.
  rewrite succ_ids_cons, fail_targets_cons, Hv, Hsucc, Hfail. done.
Qed.

(** X19. From construction to the end of a run.  A broadcaster built from a
    list of scalar identifiers, with defaults that have no [chat_id] of
    their own, and run with a [send] that always returns a truthy value,
    ends with exactly the given identifiers, in order, in its log of
    successes, and with an empty log of failures. *)
Theorem all_delivered_end_to_end lib reg vs la kw (h : heap) b h' :
  Forall (λ v, is_int_or_str v = true) vs →
  h la !! "chat_id" = None →
  __init__ lib reg (CList (IVal <$> vs)) (Some la) kw h = (Ok b, h') →
  (∀ chat_id chat_args d, ∃ v d1,
     send chat_id chat_args d = (Ok v, d1) ∧ truthy v = true) →
  ∀ rg evs d, ∃ w',
    run send this {| self := b; running := rg; events := evs; delivery := d |} =
      (Ok tt, w') ∧
    _successful (self w') = vs ∧
    _failure (self w') = [].
Proof.
  intros Hvs Hla Hinit Hsend rg evs d.
  assert (Hbuilt : _setup_chats (CList (IVal <$> vs)) (Some la) h =
                     (Ok (Some ((λ v, dict_update {["chat_id" := v]} (h la)) <$> vs)), h)).
  { unfold _setup_chats. rewrite all_scalars_vals by done.
    erewrite bind_ok by apply scalar_targets_run. reflexivity. }
  unfold __init__ in Hinit. erewrite bind_ok in Hinit by exact Hbuilt.
  apply bind_inv_ok in Hinit as (bt & h2 & _ & Hinit).
  injection Hinit as <- _.
  set (ts := (λ v, dict_update {["chat_id" := v]} (h la)) <$> vs).
  destruct (deliveries_all_truthy ts Hsend d) as (rs & d' & Hd & Hsucc & Hfail).
  match goal with
  | |- context [run send this ?w0] =>
      destruct (run_spec send this w0 ts rs None d' eq_refl Hd)
        as (new & reg' & w' & Hrun & _ & Hself & _)
  end.
  exists w'. split; [exact Hrun|]. rewrite Hself. cbn.
  rewrite Hsucc, Hfail. split; [|done].
  unfold ts. rewrite <-list_fmap_compose.
  rewrite <-(list_fmap_id vs) at 2. apply list_fmap_ext.
  intros i v _. cbn. unfold dict_get.
  by rewrite scalar_target_lookup, Hla, decide_True.
Qed.

Lemma run_body_ok_line (w : world W) t v d1 cs :
  _is_running (self w) = true → chats (self w) = Some cs →
  send (dict_get t "chat_id") t (delivery w) = (Ok v, d1) →
  run_body send t w =
    (Ok tt,
     {| self := (if truthy v then append_successful (dict_get t "chat_id")
                 else append_failure t) (self w);
        running := running w;
        events := events w ++
          [ELogInfo (LogStatus
             {| st_id := _id (self w); st_is_running := true;
                st_progress := Some (length (_successful (self w)), length cs) |});
           ESend (dict_get t "chat_id") t;
           ESleep (timeout (self w))];
        delivery := d1 |}).
Proof.
  intros Hr Hc Hs.
  unfold run_body, await_send, in_delivery, emit, on_self, lift, modify,
    get_state, _parse_args, mbind, M_bind, mret, M_ret.
  rewrite (str_running _ _ Hr Hc). cbn. rewrite Hs.
  destruct (truthy v); cbn; by rewrite <-!app_assoc.
Qed.

Lemma status_lines_app evs1 evs2 :
  status_lines (evs1 ++ evs2) = status_lines evs1 ++ status_lines evs2.
Proof. apply omap_app. Qed.

(** The status lines of the loop: one per target, each showing the
    number of successes logged before that target. *)
Lemma run_loop_lines ts : ∀ (w : world W) vs d' cs r w',
  _is_running (self w) = true → chats (self w) = Some cs →
  deliveries send ts (delivery w) = (vs, None, d') →
  for_each (run_body send) ts w = (r, w') →
  ∃ new,
    events w' = events w ++ new ∧
    status_lines new =
      (λ i, {| st_id := _id (self w); st_is_running := true;
               st_progress :=
                 Some (length (_successful (self w)) +
                       length (succ_ids (take i ts) vs), length cs) |})
      <$> seq 0 (length ts).
Proof.
  induction ts as [|t ts IH]; intros w vs d' cs r w' Hr Hc Hd Hloop.
  { injection Hloop as _ <-. exists []. by rewrite app_nil_r. }
  cbn [deliveries] in Hd.
  destruct (send (dict_get t "chat_id") t (delivery w)) as [[v|x] d1] eqn:Hs;
    [|discriminate].
  destruct (deliveries send ts d1) as [[vs1 e1] d2] eqn:Hd1.
  injection Hd as <- -> <-.
  pose proof (run_body_ok_line w t v d1 cs Hr Hc Hs) as Hbody.
  cbn [for_each] in Hloop. erewrite bind_ok in Hloop by exact Hbody.
  apply IH with (vs := vs1) (d' := d2) (cs := cs) in Hloop as (new & Hev & Hlines);
    [|cbn; by destruct (truthy v)..|exact Hd1].
  eexists. split.
  { rewrite Hev. cbn [events]. rewrite <-app_assoc. reflexivity. }
  rewrite status_lines_app, Hlines. cbn [length seq fmap list_fmap].
  rewrite <-fmap_S_seq, <-list_fmap_compose.
  cbn [status_lines omap list_omap app take]. f_equal.
  - unfold succ_ids. cbn. by rewrite Nat.add_0_r.
  - apply list_fmap_ext. intros i j _. cbn [compose take].
    rewrite succ_ids_cons.
    destruct (truthy v); cbn; [|done].
    rewrite length_app. cbn. do 3 f_equal. lia.
Qed.

Lemma running_remove_events (s s' : world W) a :
  running_remove this s = (Ok a, s') → events s' = events s.
Proof.
  unfold running_remove, get_state, modify, mbind, M_bind. cbn.
  destruct (list_remove this (running s)); [|discriminate].
  by intros [= _ <-].
Qed.

(** X20. The status line logged before each delivery of a completed run shows
    the broadcaster as running and, as progress, the number of successes
    logged so far (earlier runs included) over the number of targets: the
    line before target number i counts the truthy outcomes of the targets
    before i, not the targets processed. *)
Theorem status_lines_count_successes (w : world W) cs vs d' :
  chats (self w) = Some cs →
  deliveries send cs (delivery w) = (vs, None, d') →
  ∃ w' new,
    run send this w = (Ok tt, w') ∧
    events w' = events w ++ new ∧
    status_lines new =
      (λ i, {| st_id := _id (self w); st_is_running := true;
               st_progress :=
                 Some (length (_successful (self w)) +
                       length (succ_ids (take i cs) vs), length cs) |})
      <$> seq 0 (length cs).
Proof.
  intros Hc Hd.
  destruct (run_spec send this w cs vs None d' Hc Hd)
    as (new0 & reg' & w' & Hrun & _).
  exists w'. pose proof Hrun as Hinv. unfold run in Hinv.
  apply bind_inv_ok in Hinv as (a1 & s1 & H1 & Hinv). injection H1 as _ <-.
  apply bind_inv_ok in Hinv as (a2 & s2 & H2 & Hinv). injection H2 as _ <-.
  apply bind_inv_ok in Hinv as (a3 & s3 & H3 & Hinv). injection H3 as <- <-.
  apply bind_inv_ok in Hinv as (cs' & s4 & H4 & Hinv).
  unfold lift in H4. erewrite get_chats_Some in H4 by exact Hc.
  injection H4 as <- <-.
  apply bind_inv_ok in Hinv as (a5 & s5 & Hloop & Hinv).
  eapply run_loop_lines in Hloop as (new & Hev & Hlines); [|done|exact Hc|exact Hd].
  apply bind_inv_ok in Hinv as (a6 & s6 & H6 & Hinv). injection H6 as _ <-.
  apply bind_inv_ok in Hinv as (a7 & s7 & H7 & Hinv).
  apply running_remove_events in H7.
  apply bind_inv_ok in Hinv as (a8 & s8 & H8 & Hinv). injection H8 as <- <-.
  apply bind_inv_ok in Hinv as (cs8 & s9 & H9 & Hinv).
  unfold lift in H9. injection H9 as _ <-.
  injection Hinv as <-.
  eexists. split; [exact Hrun|]. split.
  - cbn [events]. rewrite H7. cbn [events]. rewrite Hev. cbn [events].
    rewrite <-app_assoc. reflexivity.
  - rewrite status_lines_app, Hlines. cbn. by rewrite app_nil_r.
Qed.

End more_runs.

(** ** The further properties on the example broadcaster *)

Section more_examples.
Import TargetSet Broadcaster.


Lemma run_raises_only_example :
  run send_raising_on_2 9 example_world =
    (Raise (External 1), snd (run send_raising_on_2 9 example_world)) ∧
  ((chats (self example_world) = None ∧
    External 1 = AttributeError (NoAttribute "chats")) ∨
   (∃ cs vs d', chats (self example_world) = Some cs ∧
                deliveries send_raising_on_2 cs (delivery example_world) =
                  (vs, Some (External 1), d'))).
Proof.
  assert (run send_raising_on_2 9 example_world =
            (Raise (External 1), snd (run send_raising_on_2 9 example_world)))
    as H by (by vm_compute).
  split; [exact H|].
  exact (run_raises_only send_raising_on_2 9 example_world _ _ H).
Defined.

Lemma returned_deliveries_example :
  chats (self example_world) = Some example_targets ∧
  deliveries send_raising_on_2 example_targets (delivery example_world) =
    ([VBool true], Some (External 1), tt) ∧
  ∃ r w', run send_raising_on_2 9 example_world = (r, w') ∧
    length (_successful (self w')) + length (_failure (self w')) =
      length (_successful (self example_world)) +
      length (_failure (self example_world)) + length [VBool true] ∧
    (length [VBool true] ≤ length example_targets)%nat ∧
    (Some (External 1) = None → length [VBool true] = length example_targets).
Proof.
  split; [done|]. split; [apply deliveries_raising_example|].
  apply (returned_deliveries_logged_once send_raising_on_2 9 example_world
           example_targets [VBool true] (Some (External 1)) tt);
    first [done | apply deliveries_raising_example].
Defined.

Lemma registry_example :
  run send_all_but_2 9 example_world =
    (Ok tt, snd (run send_all_but_2 9 example_world)) ∧
  running (snd (run send_all_but_2 9 example_world)) ≡ₚ running example_world ∧
  (9 ∉ running example_world →
   running (snd (run send_all_but_2 9 example_world)) = running example_world).
Proof.
  assert (run send_all_but_2 9 example_world =
            (Ok tt, snd (run send_all_but_2 9 example_world)))
    as H by (by vm_compute).
  split; [exact H|].
  exact (registry_after_completed_run send_all_but_2 9 example_world _ H).
Defined.

Lemma deliveries_flaky_first :
  deliveries send_failing_once example_targets false =
    ([VBool true], Some (External 1), true).
Proof. by vm_compute. Qed.

Lemma deliveries_flaky_second :
  deliveries send_failing_once example_targets true =
    ([VBool true; VBool true; VBool true], None, true).
Proof. by vm_compute. Qed.

Lemma stale_registration_example :
  chats (self example_world_flaky) = Some example_targets ∧
  ∃ w1 w2,
    run send_failing_once 9 example_world_flaky = (Raise (External 1), w1) ∧
    run send_failing_once 9 w1 = (Ok tt, w2) ∧
    _is_running (self w2) = false ∧
    9 ∈ running w2.
Proof.
  split; [done|].
  apply (stale_registration_survives send_failing_once 9 example_world_flaky
           example_targets [VBool true] (External 1) true
           [VBool true; VBool true; VBool true] true);
    first [done | apply deliveries_flaky_first | apply deliveries_flaky_second].
Defined.

Lemma run_without_targets_example :
  chats (self example_world_no_targets) = Some [] ∧
  ∃ w', run send_all_but_2 9 example_world_no_targets = (Ok tt, w') ∧
        _is_running (self w') = false ∧
        _successful (self w') = _successful (self example_world_no_targets) ∧
        _failure (self w') = _failure (self example_world_no_targets) ∧
        delivery w' = delivery example_world_no_targets ∧
        events w' = events example_world_no_targets ++
          [ELogInfo (LogSummary
                       (length (_successful (self example_world_no_targets))) 0)].
Proof.
  split; [done|].
  by apply (run_without_targets send_all_but_2 9 example_world_no_targets).
Defined.

(** After a second run of the example broadcaster the summary reads 4/3. *)
Lemma summary_example :
  chats (self (snd (run send_all_but_2 9 example_world))) = Some example_targets ∧
  ∃ w', run send_all_but_2 9 (snd (run send_all_but_2 9 example_world)) =
          (Ok tt, w') ∧
        list.last (events w') =
          Some (ELogInfo (LogSummary (length (_successful (self w')))
                                     (length example_targets))) ∧
        length (_successful (self w')) =
          length (_successful (self (snd (run send_all_but_2 9 example_world)))) +
          length (succ_ids example_targets [VBool true; VBool false; VBool true]).
Proof.
  split; [by vm_compute|].
  apply (summary_counts_all_runs send_all_but_2 9
           (snd (run send_all_but_2 9 example_world)) example_targets
           [VBool true; VBool false; VBool true] tt); by vm_compute.
Defined.

Lemma abort_example :
  chats (self example_world) = Some example_targets ∧
  ∃ w' new t,
    run send_raising_on_2 9 example_world = (Raise (External 1), w') ∧
    example_targets !! length [VBool true] = Some t ∧
    events w' = events example_world ++ new ∧
    non_log new =
      flat_map (send_then_sleep (timeout (self example_world)))
        (take (length [VBool true]) example_targets) ++
      [ESend (dict_get t "chat_id") t] ∧
    _successful (self w') =
      _successful (self example_world) ++ succ_ids example_targets [VBool true] ∧
    _failure (self w') =
      _failure (self example_world) ++ fail_targets example_targets [VBool true] ∧
    length (succ_ids example_targets [VBool true]) +
      length (fail_targets example_targets [VBool true]) = length [VBool true].
Proof.
  split; [done|].
  apply (abort_skips_remaining_targets send_raising_on_2 9 example_world
           example_targets [VBool true] (External 1) tt);
    first [done | apply deliveries_raising_example].
Defined.

Lemma end_to_end_example :
  Forall (λ v, is_int_or_str v = true) [VInt 1; VInt 2; VInt 3] ∧
  example_heap 5 !! "chat_id" = None ∧
  ∃ w', run send_true 9 example_world = (Ok tt, w') ∧
        _successful (self w') = [VInt 1; VInt 2; VInt 3] ∧
        _failure (self w') = [].
Proof.
  assert (H : Forall (λ v, is_int_or_str v = true) [VInt 1; VInt 2; VInt 3])
    by (by repeat constructor).
  split; [exact H|]. split; [done|].
  apply (all_delivered_end_to_end send_true 9 no_ambient_bot []
           [VInt 1; VInt 2; VInt 3] 5 (kwargs_with_bot 7) example_heap
           example_broadcaster example_heap H eq_refl init_example).
  intros chat_id chat_args d. by exists (VBool true), d.
Defined.

Lemma status_lines_example :
  chats (self example_world) = Some example_targets ∧
  ∃ w' new,
    run send_all_but_2 9 example_world = (Ok tt, w') ∧
    events w' = events example_world ++ new ∧
    status_lines new =
      (λ i, {| st_id := _id (self example_world); st_is_running := true;
               st_progress :=
                 Some (length (_successful (self example_world)) +
                       length (succ_ids (take i example_targets)
                                 [VBool true; VBool false; VBool true]),
                       length example_targets) |})
      <$> seq 0 (length example_targets).
Proof.
  split; [done|].
  apply (status_lines_count_successes send_all_but_2 9 example_world
           example_targets [VBool true; VBool false; VBool true] tt);
    first [done | apply deliveries_example].
Defined.

End more_examples.
